(** * Graphator: sensor classification, collection, retention and
      location aggregation

    A shallow embedding of the TypeScript sources
    - [app/utils/sensorGrouping.ts]        (Location Aggregator),
    - [app/services/sensorDiscovery.ts]    (Sensor Classifier),
    - [app/worker/index.ts]                (Reading Fetcher, collection pass),
    - [app/services/database/readingRepository.ts] (retention delete),
    followed by the properties of the specification that concern them. *)

From Stdlib Require Import ZArith Lia String Ascii SpecFloat.
From Stdlib Require Import Sorted Permutation.
From stdpp Require Import gmap list.

(** ** JavaScript strings

    A JavaScript string is a sequence of UTF-16 code units; every string
    primitive the sources call ([lastIndexOf], [substring], [trim],
    [includes], [toLowerCase], regular expressions without the [u] flag)
    works on code units, so that is the representation used here. *)

Abbreviation jsstring := (list N).

(** Decoding of a UTF-8 literal of this file into code units, so that
    string constants can be written as they are in the sources. *)
Fixpoint utf16 (bs : list N) : jsstring :=
  match bs with
  | [] => []
  | b0 :: r0 =>
    if (b0 <? 0x80)%N then b0 :: utf16 r0
    else
      match r0 with
      | [] => [0xFFFD%N]
      | b1 :: r1 =>
        if (b0 <? 0xE0)%N then ((b0 mod 32) * 64 + b1 mod 64)%N :: utf16 r1
        else
          match r1 with
          | [] => [0xFFFD%N]
          | b2 :: r2 =>
            if (b0 <? 0xF0)%N
            then ((b0 mod 16) * 4096 + (b1 mod 64) * 64 + b2 mod 64)%N :: utf16 r2
            else
              match r2 with
              | [] => [0xFFFD%N]
              | b3 :: r3 =>
                let cp := ((b0 mod 8) * 262144 + (b1 mod 64) * 4096
                           + (b2 mod 64) * 64 + b3 mod 64)%N in
                let v := (cp - 0x10000)%N in
                (0xD800 + v / 1024)%N :: (0xDC00 + v mod 1024)%N :: utf16 r3
              end
          end
      end
  end.

Definition str (s : string) : jsstring :=
  utf16 (List.map N_of_ascii (list_ascii_of_string s)).

(** [s.startsWith(pat)] *)
Fixpoint startsWith (s pat : jsstring) : bool :=
  match pat, s with
  | [], _ => true
  | _ :: _, [] => false
  | p :: pat', c :: s' => (c =? p)%N && startsWith s' pat'
  end.

(** [s.includes(pat)] *)
Fixpoint includes (s pat : jsstring) : bool :=
  startsWith s pat
  || match s with
     | [] => false
     | _ :: s' => includes s' pat
     end.

(** [s.lastIndexOf(pat)]: the greatest index at which [pat] occurs, [-1]
    when it does not occur. *)
Fixpoint lastIndexOf (s pat : jsstring) : Z :=
  match s with
  | [] => if startsWith [] pat then 0 else -1
  | _ :: s' =>
    let i := lastIndexOf s' pat in
    if (i =? -1)%Z then (if startsWith s pat then 0 else -1)%Z else (i + 1)%Z
  end.

(** [s.substring(a, b)]: both ends are clamped to [0 .. length] and
    swapped when [a > b]. *)
Definition substring (s : jsstring) (a b : Z) : jsstring :=
  let len := Z.of_nat (length s) in
  let a' := Z.min (Z.max a 0) len in
  let b' := Z.min (Z.max b 0) len in
  let lo := Z.min a' b' in
  let hi := Z.max a' b' in
  firstn (Z.to_nat (hi - lo)) (skipn (Z.to_nat lo) s).

(** ECMAScript [WhiteSpace] and [LineTerminator] code units, the ones
    [trim] strips. *)
Definition isLineTerminator (c : N) : bool :=
  ((c =? 0x0A) || (c =? 0x0D) || (c =? 0x2028) || (c =? 0x2029))%N.

Definition isWhiteSpace (c : N) : bool :=
  ((c =? 0x09) || (c =? 0x0B) || (c =? 0x0C) || (c =? 0x20) || (c =? 0xA0)
   || (c =? 0x1680) || ((0x2000 <=? c) && (c <=? 0x200A)) || (c =? 0x202F)
   || (c =? 0x205F) || (c =? 0x3000) || (c =? 0xFEFF))%N
  || isLineTerminator c.

Fixpoint trimStart (s : jsstring) : jsstring :=
  match s with
  | [] => []
  | c :: s' => if isWhiteSpace c then trimStart s' else s
  end.

Definition trimEnd (s : jsstring) : jsstring := rev (trimStart (rev s)).

Definition trim (s : jsstring) : jsstring := trimEnd (trimStart s).

(** [s.toLowerCase()].  The ASCII letters are folded; U+0130 and U+212A
    are the two non-ASCII code points whose lower-case form contains an
    ASCII letter.  Every other code unit of 128 or more lower-cases to
    code units of 128 or more and is left in place: the sources only
    search the result for ASCII words, which cannot tell the difference. *)
Definition lowerCodeUnit (c : N) : jsstring :=
  if ((0x41 <=? c) && (c <=? 0x5A))%N then [(c + 32)%N]
  else if (c =? 0x130)%N then [0x69%N; 0x307%N]
  else if (c =? 0x212A)%N then [0x6B%N]
  else [c].

Definition toLowerCase (s : jsstring) : jsstring := flat_map lowerCodeUnit s.

(** ** Regular expressions

    The fragment used by [isDeviceName]: a sequence of atoms, matched with
    flag [i] and without flag [u]. *)

Inductive atom : Type :=
| Bol                              (* ^ *)
| WordB                            (* \b *)
| Lit (cs : jsstring)              (* literal characters *)
| DotStar                          (* .* *)
| Alt (alts : list jsstring).      (* (w1|w2|...) *)

Abbreviation regex := (list atom).

(** [Canonicalize] with flag [i] and no flag [u]: a code unit is replaced
    by its upper-case form, except that a code unit of 128 or more is
    never mapped below 128.  Code units of 128 or more therefore stay
    apart from the ASCII characters of the patterns and are left as they
    are. *)
Definition canonicalize (c : N) : N :=
  if ((0x61 <=? c) && (c <=? 0x7A))%N then (c - 32)%N else c.

(** [\w] without flag [u]: [A-Za-z0-9_] *)
Definition isWordChar (c : N) : bool :=
  (((0x61 <=? c) && (c <=? 0x7A)) || ((0x41 <=? c) && (c <=? 0x5A))
   || ((0x30 <=? c) && (c <=? 0x39)) || (c =? 0x5F))%N.

Definition isWordCharAt (c : option N) : bool :=
  match c with
  | Some c => isWordChar c
  | None => false
  end.

(** [\b] holds between the previous code unit and the next one when
    exactly one of them is a word character. *)
Definition atWordBoundary (prev : option N) (s : jsstring) : bool :=
  xorb (isWordCharAt prev) (isWordCharAt (head s)).

(** Consume the literal [cs] at the head of [s]; the result is the last
    code unit consumed and the rest of the input. *)
Fixpoint eat (cs : jsstring) (prev : option N) (s : jsstring)
  : option (option N * jsstring) :=
  match cs with
  | [] => Some (prev, s)
  | c :: cs' =>
    match s with
    | [] => None
    | x :: s' =>
      if (canonicalize x =? canonicalize c)%N then eat cs' (Some x) s' else None
    end
  end.

(** Does [re] match at the current position, [prev] being the code unit
    just before it? *)
Fixpoint matchHere (re : regex) : option N -> jsstring -> bool :=
  match re with
  | [] => fun _ _ => true
  | a :: re' =>
    let k := matchHere re' in
    let lit cs prev s :=
      match eat cs prev s with
      | Some (p, r) => k p r
      | None => false
      end in
    match a with
    | Bol => fun prev s =>
        match prev with
        | None => k prev s
        | Some _ => false
        end
    | WordB => fun prev s => atWordBoundary prev s && k prev s
    | Lit cs => lit cs
    | Alt alts => fun prev s => existsb (fun cs => lit cs prev s) alts
    | DotStar =>
        fix star (prev : option N) (s : jsstring) {struct s} : bool :=
          k prev s
          || match s with
             | [] => false
             | x :: s' => negb (isLineTerminator x) && star (Some x) s'
             end
    end
  end.

Fixpoint search (re : regex) (prev : option N) (s : jsstring) : bool :=
  matchHere re prev s
  || match s with
     | [] => false
     | x :: s' => search re (Some x) s'
     end.

(** [re.test(s)] *)
Definition test (re : regex) (s : jsstring) : bool := search re None s.

(** ** Data model ([app/types/sensor.ts])

    A [number] is an IEEE 754 double; a [Date] is its time value in
    milliseconds since the epoch. *)

Abbreviation number := spec_float.

Definition isNaN (v : number) : bool :=
  match v with
  | S754_nan => true
  | _ => false
  end.

Module Status.
Inductive t : Type := online | offline | error.
End Status.

Module SensorType.
Inductive t : Type := temperature | humidity | both.
End SensorType.

Module Sensor.
Record t : Type := mk
  { id : jsstring;
    friendlyName : jsstring;
    entityId : jsstring;
    type : SensorType.t;
    unit : jsstring;
    lastSeen : Z;
    status : Status.t }.
End Sensor.

Module SensorReading.
Record t : Type := mk
  { sensorId : jsstring;
    timestamp : Z;
    temperature : option number;
    humidity : option number }.
End SensorReading.

Module HomeAssistantState.
Record attrs : Type := mkAttrs
  { friendly_name : option jsstring;
    unit_of_measurement : option jsstring;
    device_class : option jsstring }.
Record t : Type := mk
  { entity_id : jsstring;
    state : jsstring;
    attributes : attrs;
    last_changed : jsstring;
    last_updated : jsstring }.
End HomeAssistantState.

(** [SensorGroup] of [app/utils/sensorGrouping.ts] *)
Module SensorGroup.
Record t : Type := mk
  { location : jsstring;
    sensorIds : list jsstring;
    temperature : option number;
    humidity : option number;
    battery : option number;
    lastSeen : Z;
    status : Status.t }.
End SensorGroup.

Module DataType.
Inductive t : Type := temperature | humidity | battery.
End DataType.

(** What the sources take from their environment: the built-in
    [parseFloat], [new Date(string)] and [String.prototype.localeCompare]
    (a collation of the host, of which only the sign is used), and whether
    the database accepts the [INSERT] of a row. *)
Class Host : Type :=
  { parseFloat : jsstring -> number;
    newDate : jsstring -> Z;
    localeCompare : jsstring -> jsstring -> Z;
    insertAccepted : SensorReading.t -> bool }.

(** [x === s] for an optional string [x] *)
Definition strictEq (x : option jsstring) (s : jsstring) : bool :=
  match x with
  | Some x => bool_decide (x = s)
  | None => false
  end.

(** ** Sensor Classifier ([SensorDiscoveryService.getSensorType]) *)

Definition getSensorType (state : HomeAssistantState.t) : option SensorType.t :=
  let deviceClass :=
    HomeAssistantState.device_class (HomeAssistantState.attributes state) in
  let unit :=
    HomeAssistantState.unit_of_measurement (HomeAssistantState.attributes state) in
  if strictEq deviceClass (str "temperature")
     || match unit with
        | Some u => includes u (str "°")
        | None => false
        end
  then Some SensorType.temperature
  else if strictEq deviceClass (str "humidity") || strictEq unit (str "%")
  then Some SensorType.humidity
  else None.

(** ** Effects: exceptions and the readings table

    An [async] function of the worker either returns or throws, and may
    change the [sensor_readings] table on the way. *)

Inductive exn : Type :=
| ApiError (status : N)     (* thrown by the client on a response that is not ok *)
| NetworkError              (* rejected [fetch] *)
| QueryError.               (* rejected [pool.query] *)

Inductive result (A : Type) : Type :=
| Ok (a : A)
| Throw (e : exn).
Arguments Ok {A} a.
Arguments Throw {A} e.

Abbreviation table := (list SensorReading.t).

Definition M (A : Type) : Type := table -> result A * table.

Definition ret {A} (a : A) : M A := fun db => (Ok a, db).

Definition throw {A} (e : exn) : M A := fun db => (Throw e, db).

Definition bind {A B} (m : M A) (k : A -> M B) : M B :=
  fun db =>
    match m db with
    | (Ok a, db') => k a db'
    | (Throw e, db') => (Throw e, db')
    end.

(** [try { m } catch (error) { h error }] *)
Definition try_catch {A} (m : M A) (h : exn -> M A) : M A :=
  fun db =>
    match m db with
    | (Ok a, db') => (Ok a, db')
    | (Throw e, db') => h e db'
    end.

(** The outcome of awaiting a call that does not touch the table *)
Definition await {A} (r : result A) : M A := fun db => (r, db).

Notation "'let!' x ':=' m 'in' k" := (bind m (fun x => k))
  (at level 10, x name, m at level 100, k at level 200).

(** [Promise.all] over calls that are run one after the other; it rejects
    with the first rejection. *)
Fixpoint promiseAll {A} (ms : list (M A)) : M (list A) :=
  match ms with
  | [] => ret []
  | m :: ms' =>
    let! a := m in
    let! r := promiseAll ms' in
    ret (a :: r)
  end.

(** ** Reading repository ([readingRepository.ts]) *)

(** [INSERT INTO sensor_readings (sensor_id, timestamp, temperature,
    humidity) VALUES ($1, $2, $3, $4)] *)
Definition insertReading `{Host} (reading : SensorReading.t) : M unit :=
  fun db =>
    if insertAccepted reading then (Ok tt, db ++ [reading])
    else (Throw QueryError, db).

(** The part of a [pg] query result that is used. *)
Record QueryResult : Type := mkQueryResult { rowCount : option nat }.

(** [DELETE FROM sensor_readings WHERE <cond>] *)
Definition sqlDelete (cond : SensorReading.t -> bool) (db : table)
  : QueryResult * table :=
  ({| rowCount := Some (length (List.filter cond db)) |},
   List.filter (fun r => negb (cond r)) db).

Definition deleteOldReadings (cutoffDate : Z) : M nat :=
  fun db =>
    let '(result, db') :=
      sqlDelete (fun r => (SensorReading.timestamp r <? cutoffDate)%Z) db in
    (Ok (default 0%nat (rowCount result)), db').

(** ** Reading Fetcher and collection pass ([worker/index.ts]) *)

Record HomeAssistantClient : Type := mkClient
  { getAllStates : result (list HomeAssistantState.t);
    getSensorState : jsstring -> result HomeAssistantState.t }.

(** Lines 124 to 135: the reading object and the assignment of [value]
    according to the sensor type. *)
Definition buildReading `{Host} (sensor : Sensor.t)
    (state : HomeAssistantState.t) (value : number) : SensorReading.t :=
  let reading :=
    {| SensorReading.sensorId := Sensor.id sensor;
       SensorReading.timestamp := newDate (HomeAssistantState.last_updated state);
       SensorReading.temperature := None;
       SensorReading.humidity := None |} in
  let reading :=
    match Sensor.type sensor with
    | SensorType.temperature | SensorType.both =>
      {| SensorReading.sensorId := SensorReading.sensorId reading;
         SensorReading.timestamp := SensorReading.timestamp reading;
         SensorReading.temperature := Some value;
         SensorReading.humidity := SensorReading.humidity reading |}
    | SensorType.humidity => reading
    end in
  match Sensor.type sensor with
  | SensorType.humidity | SensorType.both =>
    {| SensorReading.sensorId := SensorReading.sensorId reading;
       SensorReading.timestamp := SensorReading.timestamp reading;
       SensorReading.temperature := SensorReading.temperature reading;
       SensorReading.humidity := Some value |}
  | SensorType.temperature => reading
  end.

Definition fetchAndStoreSensorData `{Host} (client : HomeAssistantClient)
    (sensor : Sensor.t) : M bool :=
  try_catch
    (let! state := await (getSensorState client (Sensor.entityId sensor)) in
     let value := parseFloat (HomeAssistantState.state state) in
     if isNaN value then ret false
     else
       let reading := buildReading sensor state value in
       let! _ := insertReading reading in
       ret true)
    (fun error => ret false).

(** The [results] of [collectData]: one boolean per sensor of the roster. *)
Definition collectResults `{Host} (client : HomeAssistantClient)
    (currentSensors : list Sensor.t) : M (list bool) :=
  promiseAll (List.map (fetchAndStoreSensorData client) currentSensors).

(** [collectData]; the log lines and the read-only count query that ends
    it (itself inside [try]/[catch]) leave no trace in the model. *)
Definition collectData `{Host} (client : HomeAssistantClient)
    (currentSensors : list Sensor.t) : M unit :=
  if (length currentSensors =? 0)%nat then ret tt
  else
    let! results := collectResults client currentSensors in
    ret tt.

(** ** Location Aggregator ([app/utils/sensorGrouping.ts]) *)

Definition suffixes : list jsstring :=
  [str "Temperature"; str "temperature"; str "Humidity"; str "humidity";
   str "Battery"; str "battery"; str "power"].

(** The [for] loop of [extractLocation] over the suffixes that remain. *)
Fixpoint extractLocationFrom (remaining : list jsstring)
    (friendlyName : jsstring) : jsstring :=
  match remaining with
  | [] => trim friendlyName
  | suffix :: remaining' =>
    let index := lastIndexOf friendlyName (str " " ++ suffix) in
    if negb (index =? -1)%Z then trim (substring friendlyName 0 index)
    else extractLocationFrom remaining' friendlyName
  end.

Definition extractLocation (friendlyName : jsstring) : jsstring :=
  extractLocationFrom suffixes friendlyName.

Definition devicePatterns : list regex :=
  [ [Bol; Lit (str "IKEA")];
    [Lit (str "dimmer")];
    [Lit (str "sensor")];
    [WordB; Lit (str "of"); WordB; DotStar; WordB;
     Alt [str "sweden"; str "china"; str "germany"]; WordB] ].

Definition isDeviceName (location : jsstring) : bool :=
  existsb (fun pattern => test pattern location) devicePatterns.

Definition getSensorDataType (friendlyName : jsstring) : option DataType.t :=
  let lower := toLowerCase friendlyName in
  if includes lower (str "temperature") then Some DataType.temperature
  else if includes lower (str "humidity") then Some DataType.humidity
  else if includes lower (str "battery") || includes lower (str "power")
  then Some DataType.battery
  else None.

(** [Map<string, SensorGroup>]: the entries in insertion order. *)
Abbreviation groupMap := (list (jsstring * SensorGroup.t)).

Fixpoint mapGet (key : jsstring) (m : groupMap) : option SensorGroup.t :=
  match m with
  | [] => None
  | (k, v) :: m' => if bool_decide (k = key) then Some v else mapGet key m'
  end.

(** [set] keeps the position of a key that is present and appends a new
    one; it also stands for the in-place updates of a group that [get]
    returned. *)
Fixpoint mapSet (key : jsstring) (value : SensorGroup.t) (m : groupMap)
  : groupMap :=
  match m with
  | [] => [(key, value)]
  | (k, v) :: m' =>
    if bool_decide (k = key) then (key, value) :: m'
    else (k, v) :: mapSet key value m'
  end.

Definition mapValues (m : groupMap) : list SensorGroup.t := List.map snd m.

(** [Array.prototype.sort] with a comparator: a stable sort, here by
    insertion from the right end. *)
Fixpoint sortInsert {A} (compare : A -> A -> Z) (x : A) (l : list A) : list A :=
  match l with
  | [] => [x]
  | y :: l' =>
    if (compare x y <=? 0)%Z then x :: y :: l'
    else y :: sortInsert compare x l'
  end.

Fixpoint sort {A} (compare : A -> A -> Z) (l : list A) : list A :=
  match l with
  | [] => []
  | x :: l' => sortInsert compare x (sort compare l')
  end.

(** The group created for the first sensor of a location (lines 91-99). *)
Definition newGroup (location : jsstring) (sensor : Sensor.t) : SensorGroup.t :=
  {| SensorGroup.location := location;
     SensorGroup.sensorIds := [];
     SensorGroup.temperature := None;
     SensorGroup.humidity := None;
     SensorGroup.battery := None;
     SensorGroup.lastSeen := Sensor.lastSeen sensor;
     SensorGroup.status := Sensor.status sensor |}.

(** Lines 103-127: the updates of the group of a sensor. *)
Definition pushSensorId (sensor : Sensor.t) (group : SensorGroup.t)
  : SensorGroup.t :=
  {| SensorGroup.location := SensorGroup.location group;
     SensorGroup.sensorIds := SensorGroup.sensorIds group ++ [Sensor.id sensor];
     SensorGroup.temperature := SensorGroup.temperature group;
     SensorGroup.humidity := SensorGroup.humidity group;
     SensorGroup.battery := SensorGroup.battery group;
     SensorGroup.lastSeen := SensorGroup.lastSeen group;
     SensorGroup.status := SensorGroup.status group |}.

Definition updateLastSeen (sensor : Sensor.t) (group : SensorGroup.t)
  : SensorGroup.t :=
  if (Sensor.lastSeen sensor >? SensorGroup.lastSeen group)%Z
  then
    {| SensorGroup.location := SensorGroup.location group;
       SensorGroup.sensorIds := SensorGroup.sensorIds group;
       SensorGroup.temperature := SensorGroup.temperature group;
       SensorGroup.humidity := SensorGroup.humidity group;
       SensorGroup.battery := SensorGroup.battery group;
       SensorGroup.lastSeen := Sensor.lastSeen sensor;
       SensorGroup.status := SensorGroup.status group |}
  else group.

Definition setStatus (st : Status.t) (group : SensorGroup.t) : SensorGroup.t :=
  {| SensorGroup.location := SensorGroup.location group;
     SensorGroup.sensorIds := SensorGroup.sensorIds group;
     SensorGroup.temperature := SensorGroup.temperature group;
     SensorGroup.humidity := SensorGroup.humidity group;
     SensorGroup.battery := SensorGroup.battery group;
     SensorGroup.lastSeen := SensorGroup.lastSeen group;
     SensorGroup.status := st |}.

Definition updateStatus (sensor : Sensor.t) (group : SensorGroup.t)
  : SensorGroup.t :=
  match Sensor.status sensor with
  | Status.error => setStatus Status.error group
  | Status.offline =>
    match SensorGroup.status group with
    | Status.error => group
    | _ => setStatus Status.offline group
    end
  | Status.online => group
  end.

Definition updateValues (reading : option SensorReading.t)
    (dataType : option DataType.t) (group : SensorGroup.t) : SensorGroup.t :=
  match reading, dataType with
  | Some reading, Some DataType.temperature =>
    {| SensorGroup.location := SensorGroup.location group;
       SensorGroup.sensorIds := SensorGroup.sensorIds group;
       SensorGroup.temperature := SensorReading.temperature reading;
       SensorGroup.humidity := SensorGroup.humidity group;
       SensorGroup.battery := SensorGroup.battery group;
       SensorGroup.lastSeen := SensorGroup.lastSeen group;
       SensorGroup.status := SensorGroup.status group |}
  | Some reading, Some DataType.humidity =>
    {| SensorGroup.location := SensorGroup.location group;
       SensorGroup.sensorIds := SensorGroup.sensorIds group;
       SensorGroup.temperature := SensorGroup.temperature group;
       SensorGroup.humidity := SensorReading.humidity reading;
       SensorGroup.battery := SensorGroup.battery group;
       SensorGroup.lastSeen := SensorGroup.lastSeen group;
       SensorGroup.status := SensorGroup.status group |}
  | Some reading, Some DataType.battery =>
    {| SensorGroup.location := SensorGroup.location group;
       SensorGroup.sensorIds := SensorGroup.sensorIds group;
       SensorGroup.temperature := SensorGroup.temperature group;
       SensorGroup.humidity := SensorGroup.humidity group;
       SensorGroup.battery := SensorReading.humidity reading;
       SensorGroup.lastSeen := SensorGroup.lastSeen group;
       SensorGroup.status := SensorGroup.status group |}
  | _, _ => group
  end.

(** What one sensor does to its group: the body of the loop after the
    group has been found or created.  [latestReadings] is an object used
    as a dictionary from sensor identifier to reading; identifiers are
    taken not to name a member of [Object.prototype]. *)
Definition updateGroup (latestReadings : gmap jsstring SensorReading.t)
    (sensor : Sensor.t) (group : SensorGroup.t) : SensorGroup.t :=
  let dataType := getSensorDataType (Sensor.friendlyName sensor) in
  let group := pushSensorId sensor group in
  let group := updateLastSeen sensor group in
  let group := updateStatus sensor group in
  let reading := latestReadings !! Sensor.id sensor in
  updateValues reading dataType group.

(** One iteration of the loop over [sensors]. *)
Definition addSensor (latestReadings : gmap jsstring SensorReading.t)
    (groups : groupMap) (sensor : Sensor.t) : groupMap :=
  let location := extractLocation (Sensor.friendlyName sensor) in
  if isDeviceName location then groups
  else
    let group :=
      match mapGet location groups with
      | Some group => group
      | None => newGroup location sensor
      end in
    mapSet location (updateGroup latestReadings sensor group) groups.

Definition groupSensorsByLocation `{Host} (sensors : list Sensor.t)
    (latestReadings : gmap jsstring SensorReading.t) : list SensorGroup.t :=
  let groups := fold_left (addSensor latestReadings) sensors [] in
  sort (fun a b => localeCompare (SensorGroup.location a) (SensorGroup.location b))
       (mapValues groups).

(** ** Notions used to state the properties *)

#[global] Instance Status_eq_dec : EqDecision Status.t.
Proof. solve_decision. Defined.

#[global] Instance SensorType_eq_dec : EqDecision SensorType.t.
Proof. solve_decision. Defined.

#[global] Instance DataType_eq_dec : EqDecision DataType.t.
Proof. solve_decision. Defined.

(** A reading carries a value when one of its two fields is present. *)
Definition hasValue (r : SensorReading.t) : bool :=
  bool_decide (is_Some (SensorReading.temperature r))
  || bool_decide (is_Some (SensorReading.humidity r)).

(** The reading a fetch yields: none when the client call throws or when
    the state does not parse to a number. *)
Definition fetched `{Host} (client : HomeAssistantClient) (sensor : Sensor.t)
  : option SensorReading.t :=
  match getSensorState client (Sensor.entityId sensor) with
  | Ok state =>
    let value := parseFloat (HomeAssistantState.state state) in
    if isNaN value then None else Some (buildReading sensor state value)
  | Throw _ => None
  end.

(** Does the pass persist a reading of the sensor?  It does when the fetch
    yields one and the database accepts it. *)
Definition stored `{Host} (client : HomeAssistantClient) (sensor : Sensor.t)
  : bool :=
  match fetched client sensor with
  | Some r => insertAccepted r
  | None => false
  end.

(** The rows a pass over [roster] appends, in roster order. *)
Definition persisted `{Host} (client : HomeAssistantClient)
    (roster : list Sensor.t) : list SensorReading.t :=
  List.filter insertAccepted (omap (fetched client) roster).

(** Is the row older than the cut-off? *)
Definition olderThan (cutoff : Z) (r : SensorReading.t) : bool :=
  (SensorReading.timestamp r <? cutoff)%Z.





(** The sensors of a list that the aggregator puts into the group of
    [location]: those whose name yields that location and is not taken
    for a device name. *)
Definition isMember (location : jsstring) (sensor : Sensor.t) : bool :=
  negb (isDeviceName (extractLocation (Sensor.friendlyName sensor)))
  && bool_decide (extractLocation (Sensor.friendlyName sensor) = location).

Definition members (location : jsstring) (sensors : list Sensor.t)
  : list Sensor.t :=
  List.filter (isMember location) sensors.

(** Error before offline before online. *)
Definition isError (st : Status.t) : bool :=
  match st with
  | Status.error => true
  | _ => false
  end.

Definition isOffline (st : Status.t) : bool :=
  match st with
  | Status.offline => true
  | _ => false
  end.

Definition resolveStatus (statuses : list Status.t) : Status.t :=
  if existsb isError statuses then Status.error
  else if existsb isOffline statuses then Status.offline
  else Status.online.

(** The worse of two statuses. *)
Definition worse (a b : Status.t) : Status.t :=
  match a, b with
  | Status.error, _ | _, Status.error => Status.error
  | Status.offline, _ | _, Status.offline => Status.offline
  | Status.online, Status.online => Status.online
  end.

(** The members of a location whose name announces a data kind. *)
Definition hasKind (kind : DataType.t) (sensor : Sensor.t) : bool :=
  bool_decide (getSensorDataType (Sensor.friendlyName sensor) = Some kind).

Definition membersOfKind (kind : DataType.t) (location : jsstring)
    (sensors : list Sensor.t) : list Sensor.t :=
  List.filter (hasKind kind) (members location sensors).

(** The latest readings of a list of sensors, for those that have one. *)
Definition readingsOf (latestReadings : gmap jsstring SensorReading.t)
    (sensors : list Sensor.t) : list SensorReading.t :=
  omap (fun sensor => latestReadings !! Sensor.id sensor) sensors.

(** The value a group shows for a data kind, and the field of a reading
    it is read from. *)
Definition groupValue (kind : DataType.t) (group : SensorGroup.t)
  : option number :=
  match kind with
  | DataType.temperature => SensorGroup.temperature group
  | DataType.humidity => SensorGroup.humidity group
  | DataType.battery => SensorGroup.battery group
  end.

Definition readingField (kind : DataType.t) (reading : SensorReading.t)
  : option number :=
  match kind with
  | DataType.temperature => SensorReading.temperature reading
  | DataType.humidity => SensorReading.humidity reading
  | DataType.battery => SensorReading.humidity reading
  end.

(** The field of the last reading of a list, absent when there is none. *)
Definition lastField (field : SensorReading.t -> option number)
    (readings : list SensorReading.t) : option number :=
  match last readings with
  | Some r => field r
  | None => None
  end.

(** [updateGroup] with the group first, as a fold wants it. *)
Definition update (latestReadings : gmap jsstring SensorReading.t)
    (group : SensorGroup.t) (sensor : Sensor.t) : SensorGroup.t :=
  updateGroup latestReadings sensor group.

(** The group of a location, built from its members alone: none without
    members, else the group created for the first member and updated by
    every member in turn. *)
Definition groupOf (latestReadings : gmap jsstring SensorReading.t)
    (location : jsstring) (sensors : list Sensor.t) : option SensorGroup.t :=
  match members location sensors with
  | [] => None
  | first :: rest =>
    Some (fold_left (update latestReadings) (first :: rest)
                    (newGroup location first))
  end.

(** Not after, by a comparator. *)
Definition leBy {A : Type} (compare : A -> A -> Z) (a b : A) : Prop :=
  (compare a b <= 0)%Z.

(** The maps the loop builds: every key once, and every group filed under
    its own location. *)
Definition wellKeyed (m : groupMap) : Prop :=
  List.NoDup (List.map fst m)
  /\ forall k v, In (k, v) m -> SensorGroup.location v = k.




(** A comparator by code units, one of the orders [localeCompare] may be. *)
Fixpoint compareCodeUnits (a b : jsstring) : Z :=
  match a, b with
  | [], [] => 0
  | [], _ :: _ => -1
  | _ :: _, [] => 1
  | x :: a', y :: b' =>
    if (x <? y)%N then -1
    else if (y <? x)%N then 1
    else compareCodeUnits a' b'
  end.

(** A host for evaluating the model: [parseFloat] restricted to strings of
    decimal digits, dates written as a number of milliseconds, and a
    database that accepts the rows that satisfy the check constraint of
    the schema. *)
Fixpoint parseDigits (acc : N) (s : jsstring) : option N :=
  match s with
  | [] => Some acc
  | c :: s' =>
    if ((0x30 <=? c) && (c <=? 0x39))%N
    then parseDigits (acc * 10 + (c - 0x30))%N s'
    else None
  end.

Definition numberOfN (n : N) : number :=
  match n with
  | N0 => S754_zero false
  | Npos p => S754_finite false p 0
  end.

Definition digitsHost : Host :=
  {| parseFloat := fun s =>
       match s with
       | [] => S754_nan
       | _ => from_option numberOfN S754_nan (parseDigits 0 s)
       end;
     newDate := fun s => Z.of_N (default 0%N (parseDigits 0 s));
     localeCompare := compareCodeUnits;
     insertAccepted := hasValue |}.

(** Sample data: three sensors of one room and a device, the states a
    client returns for them, and their latest readings. *)
Definition sensor_temp : Sensor.t :=
  {| Sensor.id := str "buero_temp";
     Sensor.friendlyName := str "Büro Temperature";
     Sensor.entityId := str "sensor.buero_temperature";
     Sensor.type := SensorType.temperature;
     Sensor.unit := str "°C";
     Sensor.lastSeen := 1764885600000;
     Sensor.status := Status.online |}.

Definition sensor_hum : Sensor.t :=
  {| Sensor.id := str "buero_hum";
     Sensor.friendlyName := str "Büro Humidity";
     Sensor.entityId := str "sensor.buero_humidity";
     Sensor.type := SensorType.humidity;
     Sensor.unit := str "%";
     Sensor.lastSeen := 1764885600000;
     Sensor.status := Status.online |}.

Definition sensor_bat : Sensor.t :=
  {| Sensor.id := str "buero_bat";
     Sensor.friendlyName := str "Büro Battery";
     Sensor.entityId := str "sensor.buero_battery";
     Sensor.type := SensorType.humidity;
     Sensor.unit := str "%";
     Sensor.lastSeen := 1764835200000;
     Sensor.status := Status.offline |}.

Definition sensor_ikea : Sensor.t :=
  {| Sensor.id := str "ikea_dimmer";
     Sensor.friendlyName := str "IKEA of Sweden RODRET Dimmer Battery";
     Sensor.entityId := str "sensor.ikea_dimmer_battery";
     Sensor.type := SensorType.humidity;
     Sensor.unit := str "%";
     Sensor.lastSeen := 1764835200000;
     Sensor.status := Status.online |}.

Definition stateOf (entity value : string) : HomeAssistantState.t :=
  {| HomeAssistantState.entity_id := str entity;
     HomeAssistantState.state := str value;
     HomeAssistantState.attributes :=
       {| HomeAssistantState.friendly_name := None;
          HomeAssistantState.unit_of_measurement := None;
          HomeAssistantState.device_class := None |};
     HomeAssistantState.last_changed := str "1764885600000";
     HomeAssistantState.last_updated := str "1764885600000" |}.

(** A client for which the temperature sensor answers 22, the humidity
    sensor answers with a state that is no number, and every other call
    fails with HTTP status 404. *)
Definition sampleClient : HomeAssistantClient :=
  {| getAllStates := Throw NetworkError;
     getSensorState := fun entityId =>
       if bool_decide (entityId = str "sensor.buero_temperature")
       then Ok (stateOf "sensor.buero_temperature" "22")
       else if bool_decide (entityId = str "sensor.buero_humidity")
       then Ok (stateOf "sensor.buero_humidity" "unavailable")
       else if bool_decide (entityId = str "sensor.buero_battery")
       then Ok (stateOf "sensor.buero_battery" "16")
       else Throw (ApiError 404) |}.

Definition reading_temp : SensorReading.t :=
  {| SensorReading.sensorId := str "buero_temp";
     SensorReading.timestamp := 1764885600000;
     SensorReading.temperature := Some (numberOfN 22);
     SensorReading.humidity := None |}.

Definition reading_hum : SensorReading.t :=
  {| SensorReading.sensorId := str "buero_hum";
     SensorReading.timestamp := 1764885600000;
     SensorReading.temperature := None;
     SensorReading.humidity := Some (numberOfN 52) |}.

Definition reading_bat : SensorReading.t :=
  {| SensorReading.sensorId := str "buero_bat";
     SensorReading.timestamp := 1764835200000;
     SensorReading.temperature := None;
     SensorReading.humidity := Some (numberOfN 16) |}.

Definition sampleReadings : gmap jsstring SensorReading.t :=
  <[str "buero_temp" := reading_temp]>
    (<[str "buero_hum" := reading_hum]>
       (<[str "buero_bat" := reading_bat]> ∅)).

Definition sensor_schlaf : Sensor.t :=
  {| Sensor.id := str "schlafzimmer_hum";
     Sensor.friendlyName := str "Schlafzimmer humidity";
     Sensor.entityId := str "sensor.schlafzimmer_humidity";
     Sensor.type := SensorType.humidity;
     Sensor.unit := str "%";
     Sensor.lastSeen := 1764886115000;
     Sensor.status := Status.online |}.

Definition sampleSensors : list Sensor.t :=
  [sensor_schlaf; sensor_temp; sensor_hum; sensor_bat; sensor_ikea].

(** The group of the room of the first three sample sensors. *)
Definition sampleGroup : SensorGroup.t :=
  {| SensorGroup.location := str "Büro";
     SensorGroup.sensorIds := [str "buero_temp"; str "buero_hum"; str "buero_bat"];
     SensorGroup.temperature := Some (numberOfN 22);
     SensorGroup.humidity := Some (numberOfN 52);
     SensorGroup.battery := Some (numberOfN 16);
     SensorGroup.lastSeen := 1764885600000;
     SensorGroup.status := Status.offline |}.




(** * Further code of the cited files *)

(** ** Discovery Service ([SensorDiscoveryService], continued) *)

(** [s.replace(pat, rep)] with a string pattern: the first occurrence of
    [pat] is replaced.  The replacement is taken literally, as it is for
    every replacement without a [$]. *)
Fixpoint replace (s pat rep : jsstring) : jsstring :=
  if startsWith s pat then rep ++ skipn (length pat) s
  else
    match s with
    | [] => []
    | c :: s' => c :: replace s' pat rep
    end.

(** [a || b] for an optional string [a]: [b] when [a] is undefined or
    empty. *)
Definition orString (a : option jsstring) (b : jsstring) : jsstring :=
  match a with
  | None => b
  | Some [] => b
  | Some x => x
  end.

Definition mapStateToSensor `{Host} (state : HomeAssistantState.t)
  : option Sensor.t :=
  match getSensorType state with
  | None => None
  | Some type =>
    Some {| Sensor.id := replace (HomeAssistantState.entity_id state) (str "sensor.") [];
            Sensor.entityId := HomeAssistantState.entity_id state;
            Sensor.friendlyName :=
              orString (HomeAssistantState.friendly_name
                          (HomeAssistantState.attributes state))
                       (HomeAssistantState.entity_id state);
            Sensor.type := type;
            Sensor.unit :=
              orString (HomeAssistantState.unit_of_measurement
                          (HomeAssistantState.attributes state))
                       [];
            Sensor.lastSeen := newDate (HomeAssistantState.last_updated state);
            Sensor.status := Status.online |}
  end.

(** The entities of the "sensor" namespace *)
Definition isSensorEntity (state : HomeAssistantState.t) : bool :=
  startsWith (HomeAssistantState.entity_id state) (str "sensor.").

(** [discoverSensors]: the error of a failed snapshot is logged and
    thrown again. *)
Definition discoverSensors `{Host} (client : HomeAssistantClient)
  : result (list Sensor.t) :=
  match getAllStates client with
  | Ok states => Ok (omap mapStateToSensor (List.filter isSensorEntity states))
  | Throw error => Throw error
  end.

(** ** In-memory stores ([InMemoryDataStore] and [ServerDataStore])

    The two classes have the same text for the methods they share;
    [getAllLatest] and [getStats] are those of [ServerDataStore]. *)

Module DataStore.

Definition MAX_POINTS_PER_SENSOR : nat := Z.to_nat 50000.
Arguments MAX_POINTS_PER_SENSOR : simpl never.

(** [Map<string, SensorReading[]>]: the entries in insertion order. *)
Abbreviation t := (list (jsstring * list SensorReading.t)).

Fixpoint get (key : jsstring) (data : t) : option (list SensorReading.t) :=
  match data with
  | [] => None
  | (k, v) :: data' => if bool_decide (k = key) then Some v else get key data'
  end.

Fixpoint set (key : jsstring) (value : list SensorReading.t) (data : t) : t :=
  match data with
  | [] => [(key, value)]
  | (k, v) :: data' =>
    if bool_decide (k = key) then (key, value) :: data'
    else (k, v) :: set key value data'
  end.

Definition has (key : jsstring) (data : t) : bool :=
  match get key data with
  | Some _ => true
  | None => false
  end.

(** [add]: the array of the sensor is created when missing, the reading
    is pushed, and the first element is shifted out when the array has
    grown beyond the maximum. *)
Definition add (reading : SensorReading.t) (data : t) : t :=
  let sensorId := SensorReading.sensorId reading in
  let data := if negb (has sensorId data) then set sensorId [] data else data in
  let readings := default [] (get sensorId data) in
  let readings := readings ++ [reading] in
  let readings :=
    if (MAX_POINTS_PER_SENSOR <? length readings)%nat then tail readings
    else readings in
  set sensorId readings data.

Definition getAll (sensorId : jsstring) (data : t) : list SensorReading.t :=
  default [] (get sensorId data).

Definition getByTimeRange (sensorId : jsstring) (startDate endDate : Z) (data : t)
  : list SensorReading.t :=
  List.filter (fun reading =>
                 (startDate <=? SensorReading.timestamp reading)%Z
                 && (SensorReading.timestamp reading <=? endDate)%Z)
              (getAll sensorId data).

(** [evictOldData], from the cut-off date on: [cutoffDate] is the date
    that its first two lines compute from the clock. *)
Definition evictOldData (cutoffDate : Z) (data : t) : nat * t :=
  fold_left
    (fun '(evictedCount, data) '(sensorId, readings) =>
       let originalLength := length readings in
       let filtered :=
         List.filter (fun reading => (cutoffDate <=? SensorReading.timestamp reading)%Z)
                     readings in
       ((evictedCount + (originalLength - length filtered))%nat,
        set sensorId filtered data))
    data (0%nat, data).

Definition clear (data : t) : t := [].

Definition getSensorIds (data : t) : list jsstring := List.map fst data.

Definition getLatest (sensorId : jsstring) (data : t) : option SensorReading.t :=
  match get sensorId data with
  | Some readings => last readings
  | None => None
  end.

Definition getAllLatest (data : t) : gmap jsstring SensorReading.t :=
  fold_left
    (fun latest '(sensorId, readings) =>
       match last readings with
       | Some reading => <[sensorId := reading]> latest
       | None => latest
       end)
    data ∅.

Definition getStats (data : t) : nat * nat :=
  (fold_left (fun totalPoints readings => (totalPoints + length readings)%nat)
             (List.map snd data) 0%nat,
   length data).

End DataStore.

(** ** In-memory collection ([DataCollectionService])

    The reading is built by the same lines as in the worker. *)

Module DataCollectionService.

Definition fetchSensorData `{Host} (client : HomeAssistantClient)
    (sensor : Sensor.t) : option SensorReading.t :=
  match getSensorState client (Sensor.entityId sensor) with
  | Ok state =>
    let value := parseFloat (HomeAssistantState.state state) in
    if isNaN value then None
    else Some (buildReading sensor state value)
  | Throw error => None
  end.

(** [collectData]: the readings of the pass, in roster order, are added
    to the store, the missing ones skipped. *)
Definition collectData `{Host} (client : HomeAssistantClient)
    (sensors : list Sensor.t) (data : DataStore.t) : DataStore.t :=
  let readings := List.map (fetchSensorData client) sensors in
  fold_left (fun data reading =>
               match reading with
               | Some reading => DataStore.add reading data
               | None => data
               end)
            readings data.

End DataCollectionService.

(** The operations that change a store, for stating what every store
    that the program can build satisfies. *)
Inductive storeOp : Type :=
| OpAdd (reading : SensorReading.t)
| OpEvict (cutoffDate : Z)
| OpClear.

Definition applyOp (data : DataStore.t) (op : storeOp) : DataStore.t :=
  match op with
  | OpAdd reading => DataStore.add reading data
  | OpEvict cutoffDate => snd (DataStore.evictOldData cutoffDate data)
  | OpClear => DataStore.clear data
  end.

(** Every array of the store holds at most the maximum, and every key
    occurs once. *)
Definition storeBounded (data : DataStore.t) : Prop :=
  forall sensorId readings,
    In (sensorId, readings) data ->
    (length readings <= DataStore.MAX_POINTS_PER_SENSOR)%nat.

Definition storeKeysOnce (data : DataStore.t) : Prop :=
  List.NoDup (List.map fst data).

(** The array after [push] and the conditional [shift]. *)
Definition capped (readings : list SensorReading.t) : list SensorReading.t :=
  if (DataStore.MAX_POINTS_PER_SENSOR <? length readings)%nat then tail readings
  else readings.

(** The store after a sequence of operations on the empty store. *)
Definition runOps (ops : list storeOp) : DataStore.t := fold_left applyOp ops [].

(** The readings of an array that are not older than the cut-off. *)
Definition recent (cutoffDate : Z) (readings : list SensorReading.t)
  : list SensorReading.t :=
  List.filter (fun reading => (cutoffDate <=? SensorReading.timestamp reading)%Z)
              readings.

Definition evictEntry (cutoffDate : Z) (entry : jsstring * list SensorReading.t)
  : jsstring * list SensorReading.t :=
  (fst entry, recent cutoffDate (snd entry)).

Definition removedCount (cutoffDate : Z) (data : DataStore.t) : nat :=
  list_sum (List.map (fun entry => (length (snd entry)
                                    - length (recent cutoffDate (snd entry)))%nat)
                     data).

Definition totalPoints (data : DataStore.t) : nat := fst (DataStore.getStats data).

(** ** Reading repository, continued ([readingRepository.ts])

    A [SELECT] is taken to succeed.  Rows with equal timestamps come out
    of an [ORDER BY timestamp] in an order that the database chooses; the
    order of the table stands for it, and no property below depends on
    that choice. *)

Definition byTimestampAsc (a b : SensorReading.t) : Z :=
  (SensorReading.timestamp a - SensorReading.timestamp b)%Z.

Definition byTimestampDesc (a b : SensorReading.t) : Z :=
  (SensorReading.timestamp b - SensorReading.timestamp a)%Z.

Definition ofSensor (sensorId : jsstring) (row : SensorReading.t) : bool :=
  bool_decide (SensorReading.sensorId row = sensorId).

(** [WHERE sensor_id = $1 AND timestamp >= $2 AND timestamp <= $3
    ORDER BY timestamp ASC] *)
Definition getReadingsByTimeRange (sensorId : jsstring) (startDate endDate : Z)
  : M (list SensorReading.t) :=
  fun db =>
    let rows :=
      sort byTimestampAsc
        (List.filter (fun row =>
                        ofSensor sensorId row
                        && (startDate <=? SensorReading.timestamp row)%Z
                        && (SensorReading.timestamp row <=? endDate)%Z)
                     db) in
    (Ok rows, db).

(** [WHERE sensor_id = $1 ORDER BY timestamp DESC LIMIT 1] *)
Definition getLatestReading (sensorId : jsstring) : M (option SensorReading.t) :=
  fun db =>
    let rows :=
      firstn 1 (sort byTimestampDesc (List.filter (ofSensor sensorId) db)) in
    match rows with
    | [] => (Ok None, db)
    | row :: _ => (Ok (Some row), db)
    end.

(** [DISTINCT ON (sensor_id)]: of the rows of one sensor, the first in the
    order of the query is kept. *)
Fixpoint distinctOnSensor (seen : list jsstring) (rows : list SensorReading.t)
  : list SensorReading.t :=
  match rows with
  | [] => []
  | row :: rows' =>
    if bool_decide (SensorReading.sensorId row ∈ seen)
    then distinctOnSensor seen rows'
    else row :: distinctOnSensor (SensorReading.sensorId row :: seen) rows'
  end.

(** [SELECT DISTINCT ON (sensor_id) ... ORDER BY sensor_id, timestamp DESC],
    and the loop that files each row under its sensor.  The rows are
    taken newest first; the order among sensors, which the object built
    from them does not show, is left as it comes. *)
Definition getAllLatestReadings : M (gmap jsstring SensorReading.t) :=
  fun db =>
    let rows := distinctOnSensor [] (sort byTimestampDesc db) in
    (Ok (fold_left (fun readings row => <[SensorReading.sensorId row := row]> readings)
                   rows ∅),
     db).

(** The values and the placeholders of the multi-row [INSERT] of
    [insertReadingsBatch]. *)
Inductive pgValue : Type :=
| PgText (s : jsstring)
| PgTimestamp (t : Z)
| PgDouble (v : option number).     (* [null] when absent *)

Definition batchValues (readings : list SensorReading.t) : list pgValue :=
  flat_map (fun reading =>
              [PgText (SensorReading.sensorId reading);
               PgTimestamp (SensorReading.timestamp reading);
               PgDouble (SensorReading.temperature reading);
               PgDouble (SensorReading.humidity reading)])
           readings.

(** The numbers [n] of the placeholders [$n] of each tuple *)
Definition batchPlaceholders (readings : list SensorReading.t)
  : list (nat * nat * nat * nat) :=
  imap (fun index _ =>
          let baseIndex := (index * 4)%nat in
          ((baseIndex + 1)%nat, (baseIndex + 2)%nat, (baseIndex + 3)%nat,
           (baseIndex + 4)%nat))
       readings.


(** Lines 10 to 16 of the [loader] of the home route: the groups of the
    dashboard from the sensors and the table of readings. *)
Definition loaderGroups `{Host} (sensors : list Sensor.t) : M (list SensorGroup.t) :=
  let! latestReadings := getAllLatestReadings in
  ret (groupSensorsByLocation sensors latestReadings).

(** A row of the sensor that no row of the sensor is newer than. *)
Definition newestOf (sensorId : jsstring) (db : table) (row : SensorReading.t)
  : Prop :=
  In row db
  /\ SensorReading.sensorId row = sensorId
  /\ forall row', In row' db -> SensorReading.sensorId row' = sensorId ->
                  (SensorReading.timestamp row' <= SensorReading.timestamp row)%Z.

(** ** History of a location ([loader] of [routes/sensor.$location.tsx]) *)

Module AggregatedReading.
Record t : Type := mk
  { timestamp : Z;
    temperature : option number;
    humidity : option number;
    battery : option number }.
End AggregatedReading.

(** Lines 54 to 60: the data kind of every sensor of the group that is
    found among the sensors. *)
Definition buildSensorTypeMap (sensorIds : list jsstring)
    (allSensors : list Sensor.t) : gmap jsstring (option DataType.t) :=
  fold_left
    (fun sensorTypeMap sensorId =>
       match List.find (fun s => bool_decide (Sensor.id s = sensorId)) allSensors with
       | Some sensor =>
         <[sensorId := getSensorDataType (Sensor.friendlyName sensor)]> sensorTypeMap
       | None => sensorTypeMap
       end)
    sensorIds ∅.

(** [Math.floor(t / 1000) * 1000] on a time value *)
Definition roundToSecond (t : Z) : Z := (t / 1000 * 1000)%Z.

(** [Map<string, AggregatedReading>]: the entries in insertion order.
    The key is the ISO string of the rounded date, which is one string
    for one date; the time value stands for it. *)
Abbreviation bucketMap := (list (Z * AggregatedReading.t)).

Fixpoint bucketGet (key : Z) (m : bucketMap) : option AggregatedReading.t :=
  match m with
  | [] => None
  | (k, v) :: m' => if (k =? key)%Z then Some v else bucketGet key m'
  end.

Fixpoint bucketSet (key : Z) (value : AggregatedReading.t) (m : bucketMap)
  : bucketMap :=
  match m with
  | [] => [(key, value)]
  | (k, v) :: m' =>
    if (k =? key)%Z then (key, value) :: m' else (k, v) :: bucketSet key value m'
  end.

Definition newBucket (roundedTimestamp : Z) : AggregatedReading.t :=
  {| AggregatedReading.timestamp := roundedTimestamp;
     AggregatedReading.temperature := None;
     AggregatedReading.humidity := None;
     AggregatedReading.battery := None |}.

(** Lines 81 to 87: the value of the reading goes to the field of the
    data kind of its sensor, when the reading has it. *)
Definition fillBucket (sensorType : option (option DataType.t))
    (reading : SensorReading.t) (aggregated : AggregatedReading.t)
  : AggregatedReading.t :=
  match sensorType, SensorReading.temperature reading, SensorReading.humidity reading with
  | Some (Some DataType.temperature), Some value, _ =>
    {| AggregatedReading.timestamp := AggregatedReading.timestamp aggregated;
       AggregatedReading.temperature := Some value;
       AggregatedReading.humidity := AggregatedReading.humidity aggregated;
       AggregatedReading.battery := AggregatedReading.battery aggregated |}
  | Some (Some DataType.humidity), _, Some value =>
    {| AggregatedReading.timestamp := AggregatedReading.timestamp aggregated;
       AggregatedReading.temperature := AggregatedReading.temperature aggregated;
       AggregatedReading.humidity := Some value;
       AggregatedReading.battery := AggregatedReading.battery aggregated |}
  | Some (Some DataType.battery), _, Some value =>
    {| AggregatedReading.timestamp := AggregatedReading.timestamp aggregated;
       AggregatedReading.temperature := AggregatedReading.temperature aggregated;
       AggregatedReading.humidity := AggregatedReading.humidity aggregated;
       AggregatedReading.battery := Some value |}
  | _, _, _ => aggregated
  end.

(** One iteration of the loop over the historical readings. *)
Definition addToBucket (sensorTypeMap : gmap jsstring (option DataType.t))
    (groupedByTimestamp : bucketMap) (reading : SensorReading.t) : bucketMap :=
  let roundedTimestamp := roundToSecond (SensorReading.timestamp reading) in
  let sensorType := sensorTypeMap !! SensorReading.sensorId reading in
  let aggregated :=
    match bucketGet roundedTimestamp groupedByTimestamp with
    | Some aggregated => aggregated
    | None => newBucket roundedTimestamp
    end in
  bucketSet roundedTimestamp (fillBucket sensorType reading aggregated)
            groupedByTimestamp.

(** Lines 62 to 92: the readings grouped by second and sorted by time. *)
Definition aggregateReadings (sensorTypeMap : gmap jsstring (option DataType.t))
    (historicalReadings : list SensorReading.t) : list AggregatedReading.t :=
  let groupedByTimestamp :=
    fold_left (addToBucket sensorTypeMap) historicalReadings [] in
  sort (fun a b => (AggregatedReading.timestamp a - AggregatedReading.timestamp b)%Z)
       (List.map snd groupedByTimestamp).

(** The value of a bucket for a data kind *)
Definition bucketValue (kind : DataType.t) (aggregated : AggregatedReading.t)
  : option number :=
  match kind with
  | DataType.temperature => AggregatedReading.temperature aggregated
  | DataType.humidity => AggregatedReading.humidity aggregated
  | DataType.battery => AggregatedReading.battery aggregated
  end.

(** The values that the readings of one second bring to a data kind: the
    field of every reading of that second whose sensor is of the kind
    and which has the field. *)
Definition contributions (sensorTypeMap : gmap jsstring (option DataType.t))
    (kind : DataType.t) (second : Z) (readings : list SensorReading.t)
  : list number :=
  omap (fun reading =>
          if (roundToSecond (SensorReading.timestamp reading) =? second)%Z
             && bool_decide (sensorTypeMap !! SensorReading.sensorId reading
                             = Some (Some kind))
          then readingField kind reading
          else None)
       readings.

(** Every bucket is filed under its own timestamp, and every key occurs
    once. *)
Definition bucketsKeyed (m : bucketMap) : Prop :=
  List.NoDup (List.map fst m)
  /\ forall k v, In (k, v) m -> AggregatedReading.timestamp v = k.

(** The bucket of a second, built from the readings alone. *)
Definition bucketOf (sensorTypeMap : gmap jsstring (option DataType.t))
    (second : Z) (readings : list SensorReading.t) : option AggregatedReading.t :=
  match List.filter (fun reading =>
                       (roundToSecond (SensorReading.timestamp reading) =? second)%Z)
                    readings with
  | [] => None
  | first :: rest =>
    Some (fold_left (fun aggregated reading =>
                       fillBucket (sensorTypeMap !! SensorReading.sensorId reading)
                                  reading aggregated)
                    (first :: rest) (newBucket second))
  end.

(** ** Sensor repository ([sensorRepository.ts]) and the storing
       discovery of the worker

    The [sensors] table has the identifier as its primary key and a
    [UNIQUE] entity identifier; a row is the sensor it stores. *)

Abbreviation sensorsTable := (gmap jsstring Sensor.t).

(** Whether the database accepts the upsert of a sensor apart from the
    uniqueness of the entity identifier (the length limits of the
    columns, the connection). *)
Class SensorStore : Type :=
  { upsertAccepted : Sensor.t -> bool }.

(** Does another row hold the entity identifier of the sensor? *)
Definition entityTaken (sensor : Sensor.t) (tbl : sensorsTable) : bool :=
  existsb (fun entry =>
             negb (bool_decide (fst entry = Sensor.id sensor))
             && bool_decide (Sensor.entityId (snd entry) = Sensor.entityId sensor))
          (map_to_list tbl).

(** [INSERT INTO sensors ... ON CONFLICT (id) DO UPDATE SET ...]: the row
    of the identifier becomes the sensor; the statement fails when
    another row holds the entity identifier. *)
Definition upsertSensor `{SensorStore} (sensor : Sensor.t) (tbl : sensorsTable)
  : result unit * sensorsTable :=
  if upsertAccepted sensor && negb (entityTaken sensor tbl)
  then (Ok tt, <[Sensor.id sensor := sensor]> tbl)
  else (Throw QueryError, tbl).

Definition getSensorById (id : jsstring) (tbl : sensorsTable) : option Sensor.t :=
  tbl !! id.

(** [UPDATE sensors SET status = $1 ... WHERE id = $2] *)
Definition updateSensorStatus (id : jsstring) (status : Status.t)
    (tbl : sensorsTable) : sensorsTable :=
  alter (fun row =>
           {| Sensor.id := Sensor.id row;
              Sensor.friendlyName := Sensor.friendlyName row;
              Sensor.entityId := Sensor.entityId row;
              Sensor.type := Sensor.type row;
              Sensor.unit := Sensor.unit row;
              Sensor.lastSeen := Sensor.lastSeen row;
              Sensor.status := status |})
        id tbl.

(** [DELETE FROM sensors WHERE id = $1]; the readings of the sensor go
    with it ([ON DELETE CASCADE]). *)
Definition deleteSensor (id : jsstring) (db : sensorsTable * table)
  : sensorsTable * table :=
  (delete id (fst db),
   List.filter (fun row => negb (ofSensor id row)) (snd db)).

(** The loop of [discoverAndStoreSensors] over the discovered sensors:
    it stops at the first upsert that throws. *)
Fixpoint upsertEach `{SensorStore} (sensors : list Sensor.t) (tbl : sensorsTable)
  : result unit * sensorsTable :=
  match sensors with
  | [] => (Ok tt, tbl)
  | sensor :: sensors' =>
    match upsertSensor sensor tbl with
    | (Ok _, tbl') => upsertEach sensors' tbl'
    | (Throw error, tbl') => (Throw error, tbl')
    end
  end.

(** [discoverAndStoreSensors]: an error of the discovery or of an upsert
    is logged and thrown again. *)
Definition discoverAndStoreSensors `{Host} `{SensorStore}
    (client : HomeAssistantClient) (tbl : sensorsTable)
  : result (list Sensor.t) * sensorsTable :=
  match discoverSensors client with
  | Ok sensors =>
    match upsertEach sensors tbl with
    | (Ok _, tbl') => (Ok sensors, tbl')
    | (Throw error, tbl') => (Throw error, tbl')
    end
  | Throw error => (Throw error, tbl)
  end.

(** The rows that discovery writes: filed under their identifier, with
    the entity identifier that the identifier stems from. *)
Definition namespaced (sensor : Sensor.t) : Prop :=
  Sensor.entityId sensor = str "sensor." ++ Sensor.id sensor.

Definition fromDiscovery (tbl : sensorsTable) : Prop :=
  forall id row, tbl !! id = Some row -> Sensor.id row = id /\ namespaced row.

(** The sensors of a successful discovery, none otherwise. *)
Definition discovered `{Host} (client : HomeAssistantClient) : list Sensor.t :=
  match discoverSensors client with
  | Ok sensors => sensors
  | Throw _ => []
  end.

(** ** Sample data for the further code

    A snapshot of four entities: a temperature sensor and a humidity
    sensor of one room, a light, and a sensor without a device class or a
    unit. *)
Definition sensorState (entity value name unit class : string) : HomeAssistantState.t :=
  {| HomeAssistantState.entity_id := str entity;
     HomeAssistantState.state := str value;
     HomeAssistantState.attributes :=
       {| HomeAssistantState.friendly_name := Some (str name);
          HomeAssistantState.unit_of_measurement := Some (str unit);
          HomeAssistantState.device_class := Some (str class) |};
     HomeAssistantState.last_changed := str "1764885600000";
     HomeAssistantState.last_updated := str "1764885600000" |}.

Definition sampleStates : list HomeAssistantState.t :=
  [sensorState "sensor.buero_temperature" "22" "Büro Temperature" "°C" "temperature";
   sensorState "sensor.buero_humidity" "52" "Büro Humidity" "%" "humidity";
   stateOf "light.kitchen" "on";
   stateOf "sensor.uptime" "3600"].

(** A client that serves the snapshot, and the state of an entity from
    it. *)
Definition snapshotClient : HomeAssistantClient :=
  {| getAllStates := Ok sampleStates;
     getSensorState := fun entityId =>
       match List.find (fun state =>
                          bool_decide (HomeAssistantState.entity_id state = entityId))
                       sampleStates with
       | Some state => Ok state
       | None => Throw (ApiError 404)
       end |}.

(** The first sensor that discovery makes of the snapshot. *)
Definition discovered_temp : Sensor.t :=
  {| Sensor.id := str "buero_temperature";
     Sensor.friendlyName := str "Büro Temperature";
     Sensor.entityId := str "sensor.buero_temperature";
     Sensor.type := SensorType.temperature;
     Sensor.unit := str "°C";
     Sensor.lastSeen := 1764885600000;
     Sensor.status := Status.online |}.

(** A database that accepts every upsert whose entity identifier is
    free. *)
Definition acceptAll : SensorStore := {| upsertAccepted := fun _ => true |}.

(** A table of sensors with the row of an earlier discovery. *)
Definition sampleSensorsTable : sensorsTable :=
  <[str "buero_temperature" :=
      {| Sensor.id := str "buero_temperature";
         Sensor.friendlyName := str "sensor.buero_temperature";
         Sensor.entityId := str "sensor.buero_temperature";
         Sensor.type := SensorType.temperature;
         Sensor.unit := str "°C";
         Sensor.lastSeen := 1764835200000;
         Sensor.status := Status.offline |}]> ∅.

(** An older reading of the temperature sensor, a reading without a
    value, and a table of readings. *)
Definition reading_temp_old : SensorReading.t :=
  {| SensorReading.sensorId := str "buero_temp";
     SensorReading.timestamp := 1764885540250;
     SensorReading.temperature := Some (numberOfN 21);
     SensorReading.humidity := None |}.


Definition sampleTable : table :=
  [reading_temp; reading_bat; reading_temp_old; reading_hum].

(** The group that the snapshot gives without readings, and the history
    entry of the second of the newest sample readings. *)
Definition snapshotGroup : SensorGroup.t :=
  {| SensorGroup.location := str "Büro";
     SensorGroup.sensorIds := [str "buero_temperature"; str "buero_humidity"];
     SensorGroup.temperature := None;
     SensorGroup.humidity := None;
     SensorGroup.battery := None;
     SensorGroup.lastSeen := 1764885600000;
     SensorGroup.status := Status.online |}.

Definition sampleBucket : AggregatedReading.t :=
  {| AggregatedReading.timestamp := 1764885600000;
     AggregatedReading.temperature := Some (numberOfN 22);
     AggregatedReading.humidity := Some (numberOfN 52);
     AggregatedReading.battery := None |}.

(** * Properties *)

(** ** Sensor Classifier *)






(** ** Retention delete *)

Lemma filter_split_perm {A} (f : A -> bool) (l : list A) :
  Permutation l (List.filter f l ++ List.filter (fun x => negb (f x)) l).
Proof.
  induction l as [|x l IH]; simpl; [constructor|].
  destruct (f x); simpl.
  - now constructor.
  - rewrite <- Permutation_middle. now constructor.
Qed.

Lemma filter_none {A} (f : A -> bool) (l : list A) :
  (forall x, In x l -> f x = false) -> List.filter f l = [].
Proof.
  induction l as [|x l IH]; simpl; intros Hall; [reflexivity|].
  rewrite (Hall x) by now left. apply IH. intros y Hy. apply Hall. now right.
Qed.

Lemma filter_all {A} (f : A -> bool) (l : list A) :
  (forall x, In x l -> f x = true) -> List.filter f l = l.
Proof.
  induction l as [|x l IH]; simpl; intros Hall; [reflexivity|].
  rewrite (Hall x) by now left. f_equal. apply IH. intros y Hy. apply Hall. now right.
Qed.

Lemma deleteOldReadings_outcome (cutoff : Z) (db : table) :
  deleteOldReadings cutoff db =
  (Ok (length (List.filter (olderThan cutoff) db)),
   List.filter (fun r => negb (olderThan cutoff r)) db).
Proof. reflexivity. Qed.

(** C4: [deleteOldReadings cutoff] returns normally; the rows that remain
    are exactly the rows whose timestamp is not strictly before the
    cut-off, the rows that went are exactly those strictly before it
    (multiplicities included), the number returned is the number of rows
    that went, and a second run with the same cut-off on the resulting
    table deletes nothing and returns 0. *)
Theorem deleteOldReadings_exact_and_idempotent (cutoff : Z) (db : table) :
  exists (n : nat) (db' : table),
    deleteOldReadings cutoff db = (Ok n, db')
    /\ (forall r, In r db' <-> In r db /\ (cutoff <= SensorReading.timestamp r)%Z)
    /\ Permutation db (List.filter (olderThan cutoff) db ++ db')
    /\ (forall r, In r (List.filter (olderThan cutoff) db) <->
                  In r db /\ (SensorReading.timestamp r < cutoff)%Z)
    /\ n = length (List.filter (olderThan cutoff) db)
    /\ (n + length db' = length db)%nat
    /\ deleteOldReadings cutoff db' = (Ok 0%nat, db').
Proof.
  eexists _, _. split; [apply deleteOldReadings_outcome|].
  split; [|split; [|split; [|split; [|split]]]].
  - intros r. rewrite filter_In. unfold olderThan.
    rewrite negb_true_iff, Z.ltb_ge. reflexivity.
  - apply filter_split_perm.
  - intros r. rewrite filter_In. unfold olderThan. rewrite Z.ltb_lt. reflexivity.
  - reflexivity.
  - rewrite <- length_app. symmetry. apply Permutation_length, filter_split_perm.
  - rewrite deleteOldReadings_outcome.
    assert (List.filter (olderThan cutoff)
              (List.filter (fun r => negb (olderThan cutoff r)) db) = []) as E.
    { apply filter_none. intros r Hr. apply filter_In in Hr.
      destruct Hr as [_ Hr]. now apply negb_true_iff in Hr. }
    rewrite E. simpl. f_equal.
    apply filter_all. intros r Hr. apply filter_In in Hr. tauto.
Qed.

(** ** Reading Fetcher and collection pass *)

Section Collection.
Context `{Host}.
Variable client : HomeAssistantClient.

Lemma buildReading_hasValue (sensor : Sensor.t) (state : HomeAssistantState.t)
    (value : number) :
  hasValue (buildReading sensor state value) = true.
Proof. unfold buildReading, hasValue. destruct (Sensor.type sensor); reflexivity. Qed.

Lemma fetched_hasValue (sensor : Sensor.t) (r : SensorReading.t) :
  fetched client sensor = Some r -> hasValue r = true.
Proof.
  unfold fetched. destruct (getSensorState client _) as [state|e]; [|discriminate].
  destruct (isNaN _); [discriminate|]. intros [= <-]. apply buildReading_hasValue.
Qed.

(** One fetch, whatever happens inside, returns a boolean: [true]
    together with the row it appended, or [false] with the table as it
    was. *)
Lemma fetchAndStoreSensorData_outcome (sensor : Sensor.t) (db : table) :
  fetchAndStoreSensorData client sensor db =
  (Ok (stored client sensor),
   db ++ (if stored client sensor then option_list (fetched client sensor) else [])).
Proof.
  unfold fetchAndStoreSensorData, stored, fetched, try_catch, bind, await, ret.
  destruct (getSensorState client (Sensor.entityId sensor)) as [state|e]; simpl.
  - destruct (isNaN (parseFloat (HomeAssistantState.state state))); simpl.
    + now rewrite app_nil_r.
    + unfold insertReading.
      destruct (insertAccepted _); simpl; [reflexivity|now rewrite app_nil_r].
  - now rewrite app_nil_r.
Qed.

Lemma collectResults_outcome (roster : list Sensor.t) (db : table) :
  collectResults client roster db =
  (Ok (List.map (stored client) roster), db ++ persisted client roster).
Proof.
  unfold collectResults, persisted. revert db.
  induction roster as [|sensor roster IH]; intros db; simpl.
  - unfold ret. now rewrite app_nil_r.
  - unfold bind at 1. rewrite fetchAndStoreSensorData_outcome.
    unfold bind at 1. rewrite IH. unfold ret. f_equal.
    rewrite <- app_assoc. f_equal.
    unfold stored. destruct (fetched client sensor) as [r|]; simpl; [|reflexivity].
    destruct (insertAccepted r); reflexivity.
Qed.

Lemma collectData_outcome (roster : list Sensor.t) (db : table) :
  collectData client roster db = (Ok tt, db ++ persisted client roster).
Proof.
  unfold collectData. destruct roster as [|sensor roster].
  - simpl. unfold ret, persisted. simpl. now rewrite app_nil_r.
  - change (length (sensor :: roster) =? 0)%nat with false. cbv iota.
    unfold bind. now rewrite collectResults_outcome.
Qed.

Lemma in_persisted (roster : list Sensor.t) (r : SensorReading.t) :
  In r (persisted client roster) <->
  exists sensor, In sensor roster /\ fetched client sensor = Some r
                 /\ insertAccepted r = true.
Proof.
  unfold persisted. rewrite filter_In, <- list_elem_of_In, list_elem_of_omap.
  setoid_rewrite list_elem_of_In. split.
  - intros [(sensor & Hin & Hf) Hacc]. eauto.
  - intros (sensor & Hin & Hf & Hacc). eauto.
Qed.

(** The order in which the fetches of a pass are served changes the
    order of the appended rows and nothing else. *)
Lemma persisted_Permutation (roster roster' : list Sensor.t) :
  Permutation roster roster' -> Permutation (persisted client roster) (persisted client roster').
Proof.
  intros Hp. unfold persisted.
  induction Hp as [|x l l' Hp IH|x y l|l l' l'' Hp1 IH1 Hp2 IH2]; simpl.
  - constructor.
  - destruct (fetched client x) as [r|]; simpl; [|exact IH].
    destruct (insertAccepted r); [now constructor|exact IH].
  - destruct (fetched client x) as [rx|], (fetched client y) as [ry|]; simpl;
      try reflexivity.
    destruct (insertAccepted rx), (insertAccepted ry); try reflexivity.
    apply perm_swap.
  - now transitivity (List.filter insertAccepted (omap (fetched client) l')).
Qed.

(** C1: a collection pass over a roster never throws ([collectData] and
    the results of its fetches return normally, one boolean per sensor).
    A sensor whose fetch fails (the client call throws, or the state
    parses to NaN) reports [false] and adds no row; every sensor whose
    fetch succeeds and whose row the database accepts has its reading in
    the table afterwards, wherever the failing sensors stand in the
    roster; the earlier rows are kept, and every new row is the reading
    of a sensor of the roster.  In particular, when exactly one sensor
    of a roster fails, the pass appends one row for each of the
    others. *)
Theorem collection_failure_isolation (roster : list Sensor.t) (db : table) :
  exists (results : list bool) (db' : table),
    collectResults client roster db = (Ok results, db')
    /\ collectData client roster db = (Ok tt, db')
    /\ length results = length roster
    /\ (forall sensor db0, exists ok db1,
           fetchAndStoreSensorData client sensor db0 = (Ok ok, db1))
    /\ (forall i sensor, roster !! i = Some sensor ->
           fetched client sensor = None -> results !! i = Some false)
    /\ (forall sensor r, In sensor roster -> fetched client sensor = Some r ->
           insertAccepted r = true -> In r db')
    /\ (exists new, db' = db ++ new
           /\ (forall r, In r new ->
                 exists sensor, In sensor roster /\ fetched client sensor = Some r)
           /\ (forall pre failing post,
                 roster = pre ++ failing :: post ->
                 fetched client failing = None ->
                 (forall sensor, In sensor (pre ++ post) -> stored client sensor = true) ->
                 new = omap (fetched client) (pre ++ post)
                 /\ length new = (length roster - 1)%nat)).
Proof.
  exists (List.map (stored client) roster), (db ++ persisted client roster).
  split; [apply collectResults_outcome|].
  split; [apply collectData_outcome|].
  split; [apply length_map|].
  split; [intros sensor db0; rewrite fetchAndStoreSensorData_outcome; eauto|].
  split.
  { intros i sensor Hi Hf. rewrite list_lookup_fmap, Hi. simpl.
    unfold stored. now rewrite Hf. }
  split.
  { intros sensor r Hin Hf Hacc. apply in_or_app. right.
    apply in_persisted. eauto. }
  exists (persisted client roster). split; [reflexivity|]. split.
  { intros r Hr. apply in_persisted in Hr. destruct Hr as (sensor & ? & ? & ?). eauto. }
  intros pre failing post -> Hfail Hothers.
  assert (persisted client (pre ++ failing :: post) = omap (fetched client) (pre ++ post)) as E.
  { unfold persisted. rewrite omap_app. simpl. rewrite Hfail.
    rewrite <- omap_app. apply filter_all. intros r Hr.
    apply list_elem_of_In, list_elem_of_omap in Hr.
    destruct Hr as (sensor & Hin & Hf). apply list_elem_of_In in Hin.
    specialize (Hothers sensor Hin). unfold stored in Hothers.
    now rewrite Hf in Hothers. }
  split; [exact E|]. rewrite E.
  assert (forall l, (forall sensor, In sensor l -> stored client sensor = true) ->
                    length (omap (fetched client) l) = length l) as Hlen.
  { induction l as [|x l IH]; simpl; intros Hall; [reflexivity|].
    pose proof (Hall x (or_introl eq_refl)) as Hx. unfold stored in Hx.
    destruct (fetched client x); [|discriminate]. simpl. f_equal.
    apply IH. intros y Hy. apply Hall. now right. }
  rewrite (Hlen _ Hothers), !length_app. simpl. lia.
Qed.

(** C7: a reading built by the fetcher always has a temperature or a
    humidity, for each of the three sensor kinds; so has every reading
    it hands to the insert, and therefore every row that a fetch or a
    whole pass adds to the table. *)
Theorem fetcher_reading_has_value :
  (forall sensor state value,
      let r := buildReading sensor state value in
      is_Some (SensorReading.temperature r) \/ is_Some (SensorReading.humidity r))
  /\ (forall sensor r, fetched client sensor = Some r -> hasValue r = true)
  /\ (forall sensor db ok db' r,
         fetchAndStoreSensorData client sensor db = (ok, db') ->
         In r db' -> In r db \/ hasValue r = true)
  /\ (forall roster db out db' r,
         collectData client roster db = (out, db') ->
         In r db' -> In r db \/ hasValue r = true).
Proof.
  split; [|split; [apply fetched_hasValue|split]].
  - intros sensor state value. unfold buildReading.
    destruct (Sensor.type sensor); simpl; eauto.
  - intros sensor db ok db' r. rewrite fetchAndStoreSensorData_outcome.
    intros [= _ <-] Hin. apply in_app_or in Hin. destruct Hin as [Hin|Hin]; [now left|].
    right. destruct (stored client sensor); [|contradiction].
    destruct (fetched client sensor) as [r'|] eqn:Hf; simpl in Hin; [|contradiction].
    destruct Hin as [<-|[]]. eapply fetched_hasValue, Hf.
  - intros roster db out db' r. rewrite collectData_outcome.
    intros [= _ <-] Hin. apply in_app_or in Hin. destruct Hin as [Hin|Hin]; [now left|].
    right. apply in_persisted in Hin. destruct Hin as (sensor & _ & Hf & _).
    eapply fetched_hasValue, Hf.
Qed.
End Collection.

(** ** Location Aggregator: the map of groups *)

Lemma mapGet_mapSet (k k' : jsstring) (v : SensorGroup.t) (m : groupMap) :
  mapGet k' (mapSet k v m) = if bool_decide (k = k') then Some v else mapGet k' m.
Proof.
  induction m as [|[k0 v0] m IH]; simpl.
  - reflexivity.
  - destruct (bool_decide_reflect (k0 = k)) as [->|Hne]; simpl.
    + destruct (bool_decide (k = k')); reflexivity.
    + rewrite IH. destruct (bool_decide_reflect (k0 = k')) as [->|Hne'].
      * rewrite bool_decide_eq_false_2 by congruence. reflexivity.
      * reflexivity.
Qed.

Lemma mapGet_In (k : jsstring) (v : SensorGroup.t) (m : groupMap) :
  mapGet k m = Some v -> In (k, v) m.
Proof.
  induction m as [|[k0 v0] m IH]; simpl; [discriminate|].
  destruct (bool_decide_reflect (k0 = k)) as [->|Hne].
  - intros [= ->]. now left.
  - intros Hg. right. auto.
Qed.

Lemma mapGet_None (k : jsstring) (m : groupMap) :
  mapGet k m = None <-> ~ In k (List.map fst m).
Proof.
  induction m as [|[k0 v0] m IH]; simpl.
  - tauto.
  - destruct (bool_decide_reflect (k0 = k)) as [->|Hne].
    + split; [discriminate|]. intros Hn. exfalso. apply Hn. now left.
    + rewrite IH. tauto.
Qed.

Lemma In_mapGet (k : jsstring) (v : SensorGroup.t) (m : groupMap) :
  List.NoDup (List.map fst m) -> In (k, v) m -> mapGet k m = Some v.
Proof.
  induction m as [|[k0 v0] m IH]; simpl; [tauto|].
  intros Hnd Hin. apply List.NoDup_cons_iff in Hnd. destruct Hnd as [Hnotin Hnd].
  destruct Hin as [[= -> ->]|Hin].
  - now rewrite bool_decide_eq_true_2.
  - rewrite bool_decide_eq_false_2; [auto|].
    intros ->. apply Hnotin. apply (in_map fst) in Hin. exact Hin.
Qed.

Lemma mapSet_keys (k : jsstring) (v : SensorGroup.t) (m : groupMap) :
  List.map fst (mapSet k v m) =
  match mapGet k m with
  | Some _ => List.map fst m
  | None => List.map fst m ++ [k]
  end.
Proof.
  induction m as [|[k0 v0] m IH]; simpl; [reflexivity|].
  destruct (bool_decide_reflect (k0 = k)) as [->|Hne]; simpl; [reflexivity|].
  rewrite IH. destruct (mapGet k m); reflexivity.
Qed.

Lemma In_mapSet (k k' : jsstring) (v v' : SensorGroup.t) (m : groupMap) :
  In (k', v') (mapSet k v m) -> (k', v') = (k, v) \/ In (k', v') m.
Proof.
  induction m as [|[k0 v0] m IH]; simpl.
  - intros [E|[]]. now left.
  - destruct (bool_decide (k0 = k)); simpl; intros [E|Hin]; auto.
    destruct (IH Hin); auto.
Qed.

Lemma wellKeyed_values (m : groupMap) (g : SensorGroup.t) :
  wellKeyed m ->
  (In g (mapValues m) <-> mapGet (SensorGroup.location g) m = Some g).
Proof.
  intros [Hnd Hloc]. unfold mapValues. split.
  - intros Hin. apply in_map_iff in Hin. destruct Hin as ([k v] & Hv & Hin).
    simpl in Hv. subst v. rewrite (Hloc _ _ Hin). now apply In_mapGet.
  - intros Hg. apply mapGet_In in Hg. apply (in_map snd) in Hg. exact Hg.
Qed.

Section Groups.
Variable latestReadings : gmap jsstring SensorReading.t.

Lemma updateGroup_location (sensor : Sensor.t) (group : SensorGroup.t) :
  SensorGroup.location (updateGroup latestReadings sensor group)
  = SensorGroup.location group.
Proof.
  unfold updateGroup, updateValues, updateStatus, updateLastSeen, pushSensorId, setStatus.
  repeat match goal with
         | |- context [match ?x with _ => _ end] => destruct x; simpl
         | |- context [if ?x then _ else _] => destruct x; simpl
         end; reflexivity.
Qed.

Lemma addSensor_wellKeyed (groups : groupMap) (sensor : Sensor.t) :
  wellKeyed groups -> wellKeyed (addSensor latestReadings groups sensor).
Proof.
  intros [Hnd Hloc]. unfold addSensor.
  destruct (isDeviceName _); [split; assumption|].
  set (location := extractLocation (Sensor.friendlyName sensor)).
  split.
  - rewrite mapSet_keys. destruct (mapGet location groups) eqn:Hg; [exact Hnd|].
    apply mapGet_None in Hg. apply List.NoDup_app. repeat split.
    + exact Hnd.
    + constructor; [simpl; tauto|constructor].
    + intros k Hk [<-|[]]. contradiction.
  - intros k v Hin. apply In_mapSet in Hin. destruct Hin as [[= -> ->]|Hin]; [|eauto].
    rewrite updateGroup_location.
    destruct (mapGet location groups) eqn:Hg; [|reflexivity].
    apply mapGet_In in Hg. eauto.
Qed.

Lemma fold_addSensor_wellKeyed (sensors : list Sensor.t) (groups : groupMap) :
  wellKeyed groups ->
  wellKeyed (fold_left (addSensor latestReadings) sensors groups).
Proof.
  revert groups. induction sensors as [|sensor sensors IH]; simpl; intros groups Hw.
  - exact Hw.
  - apply IH, addSensor_wellKeyed, Hw.
Qed.

(** What one iteration does to the group of a given location. *)
Lemma mapGet_addSensor (location : jsstring) (groups : groupMap)
    (sensor : Sensor.t) :
  mapGet location (addSensor latestReadings groups sensor) =
  if isMember location sensor
  then Some (update latestReadings (default (newGroup location sensor) (mapGet location groups))
                    sensor)
  else mapGet location groups.
Proof.
  unfold addSensor, isMember.
  destruct (isDeviceName (extractLocation (Sensor.friendlyName sensor))); simpl;
    [reflexivity|].
  rewrite mapGet_mapSet.
  destruct (bool_decide_reflect
              (extractLocation (Sensor.friendlyName sensor) = location)) as [->|Hne];
    [|reflexivity].
  unfold update. destruct (mapGet location groups); reflexivity.
Qed.

(** The group of a location after the loop depends on the members of
    that location only. *)
Lemma mapGet_fold_addSensor (location : jsstring) (sensors : list Sensor.t)
    (groups : groupMap) :
  mapGet location (fold_left (addSensor latestReadings) sensors groups) =
  match mapGet location groups with
  | Some group => Some (fold_left (update latestReadings) (members location sensors) group)
  | None => groupOf latestReadings location sensors
  end.
Proof.
  revert groups. induction sensors as [|sensor sensors IH]; intros groups; simpl.
  - unfold groupOf. simpl. destruct (mapGet location groups); reflexivity.
  - rewrite IH, mapGet_addSensor. unfold groupOf, members. simpl.
    destruct (isMember location sensor); simpl.
    + destruct (mapGet location groups); reflexivity.
    + reflexivity.
Qed.

Lemma groupOf_fold (location : jsstring) (sensors : list Sensor.t) :
  mapGet location (fold_left (addSensor latestReadings) sensors [])
  = groupOf latestReadings location sensors.
Proof. now rewrite mapGet_fold_addSensor. Qed.
End Groups.

(** ** The stable sort *)

Section Sort.
Context {A : Type} (compare : A -> A -> Z).

Local Abbreviation le := (leBy compare).

Lemma sortInsert_Permutation (x : A) (l : list A) :
  Permutation (sortInsert compare x l) (x :: l).
Proof.
  induction l as [|y l IH]; simpl; [reflexivity|].
  destruct (compare x y <=? 0)%Z; [reflexivity|].
  rewrite IH. apply perm_swap.
Qed.

Lemma sort_Permutation (l : list A) : Permutation (sort compare l) l.
Proof.
  induction l as [|x l IH]; simpl; [reflexivity|].
  rewrite sortInsert_Permutation. now constructor.
Qed.

Lemma sort_In (l : list A) (x : A) : In x (sort compare l) <-> In x l.
Proof.
  split; apply Permutation_in; [|symmetry]; apply sort_Permutation.
Qed.

Hypothesis le_total : forall a b, le a b \/ le b a.
Hypothesis le_trans : forall a b c, le a b -> le b c -> le a c.

Lemma sortInsert_StronglySorted (x : A) (l : list A) :
  StronglySorted le l -> StronglySorted le (sortInsert compare x l).
Proof.
  induction 1 as [|y l Hs IH Hall]; simpl.
  - repeat constructor.
  - destruct (Z.leb_spec (compare x y) 0) as [Hle|Hgt].
    + constructor; [now constructor|].
      constructor; [exact Hle|].
      eapply List.Forall_impl; [|exact Hall]. intros z Hz. now apply (le_trans x y z).
    + constructor; [exact IH|].
      rewrite sortInsert_Permutation. constructor; [|exact Hall].
      destruct (le_total x y) as [Hxy|Hyx]; [|exact Hyx].
      unfold le in Hxy. lia.
Qed.

Lemma sort_StronglySorted (l : list A) : StronglySorted le (sort compare l).
Proof.
  induction l as [|x l IH]; simpl; [constructor|].
  now apply sortInsert_StronglySorted.
Qed.


End Sort.

(** ** Location Aggregator: what a group holds *)

Lemma worse_idem (a : Status.t) : worse a a = a.
Proof. destruct a; reflexivity. Qed.

Lemma resolveStatus_cons_cons (a b : Status.t) (l : list Status.t) :
  resolveStatus (a :: b :: l) = resolveStatus (worse a b :: l).
Proof.
  unfold resolveStatus. destruct a, b; simpl; try reflexivity;
    destruct (existsb isError l); reflexivity.
Qed.

Lemma fold_worse_resolve (l : list Status.t) (a : Status.t) :
  fold_left worse l a = resolveStatus (a :: l).
Proof.
  revert a. induction l as [|b l IH]; intros a; simpl.
  - destruct a; reflexivity.
  - now rewrite IH, resolveStatus_cons_cons.
Qed.

Lemma resolveStatus_spec (l : list Status.t) :
  ((exists st, In st l /\ st = Status.error) -> resolveStatus l = Status.error)
  /\ ((forall st, In st l -> st <> Status.error) ->
      (exists st, In st l /\ st = Status.offline) ->
      resolveStatus l = Status.offline)
  /\ ((forall st, In st l -> st = Status.online) ->
      resolveStatus l = Status.online).
Proof.
  unfold resolveStatus. repeat split.
  - intros (st & Hin & ->).
    assert (existsb isError l = true) as -> by (apply existsb_exists; eauto).
    reflexivity.
  - intros Hne (st & Hin & ->).
    destruct (existsb isError l) eqn:E.
    + apply existsb_exists in E. destruct E as (st & Hst & Herr).
      destruct st; try discriminate. now destruct (Hne _ Hst).
    + assert (existsb isOffline l = true) as -> by (apply existsb_exists; eauto).
      reflexivity.
  - intros Hall.
    destruct (existsb isError l) eqn:E.
    + apply existsb_exists in E. destruct E as (st & Hst & Herr).
      rewrite (Hall _ Hst) in Herr. discriminate.
    + destruct (existsb isOffline l) eqn:E'; [|reflexivity].
      apply existsb_exists in E'. destruct E' as (st & Hst & Hoff).
      rewrite (Hall _ Hst) in Hoff. discriminate.
Qed.

Lemma resolveStatus_ext (l l' : list Status.t) :
  (forall st, In st l <-> In st l') -> resolveStatus l = resolveStatus l'.
Proof.
  intros Hext. unfold resolveStatus.
  assert (forall f, existsb f l = existsb f l') as E.
  { intros f. apply eq_true_iff_eq. rewrite !existsb_exists.
    split; intros (st & Hin & Hf); exists st; split; auto; now apply Hext. }
  now rewrite !E.
Qed.

Section GroupFields.
Variable latestReadings : gmap jsstring SensorReading.t.

Ltac crush_update :=
  unfold updateGroup, updateValues, updateStatus, updateLastSeen, pushSensorId,
    setStatus;
  repeat match goal with
         | |- context [match ?x with _ => _ end] => destruct x; simpl
         | |- context [if ?x then _ else _] => destruct x; simpl
         end; try reflexivity.

Lemma updateGroup_sensorIds (sensor : Sensor.t) (group : SensorGroup.t) :
  SensorGroup.sensorIds (updateGroup latestReadings sensor group)
  = SensorGroup.sensorIds group ++ [Sensor.id sensor].
Proof. crush_update. Qed.

Lemma updateGroup_status (sensor : Sensor.t) (group : SensorGroup.t) :
  SensorGroup.status (updateGroup latestReadings sensor group)
  = worse (SensorGroup.status group) (Sensor.status sensor).
Proof.
  unfold updateGroup.
  set (g1 := updateLastSeen sensor (pushSensorId sensor group)).
  assert (SensorGroup.status g1 = SensorGroup.status group) as <-.
  { unfold g1, updateLastSeen, pushSensorId. now destruct (_ >? _)%Z. }
  assert (forall r d g, SensorGroup.status (updateValues r d g) = SensorGroup.status g)
    as ->.
  { intros [r|] [[]|] g; reflexivity. }
  unfold updateStatus, setStatus.
  destruct (Sensor.status sensor), (SensorGroup.status g1) eqn:E; simpl;
    rewrite ?E; reflexivity.
Qed.

Lemma updateGroup_value (kind : DataType.t) (sensor : Sensor.t)
    (group : SensorGroup.t) :
  groupValue kind (updateGroup latestReadings sensor group) =
  if hasKind kind sensor
  then match latestReadings !! Sensor.id sensor with
       | Some r => readingField kind r
       | None => groupValue kind group
       end
  else groupValue kind group.
Proof.
  unfold updateGroup, hasKind.
  set (g1 := updateStatus sensor (updateLastSeen sensor (pushSensorId sensor group))).
  assert (groupValue kind g1 = groupValue kind group) as <-.
  { unfold g1, updateStatus, setStatus, updateLastSeen, pushSensorId.
    destruct kind; crush_update. }
  destruct (getSensorDataType (Sensor.friendlyName sensor)) as [[]|],
    (latestReadings !! Sensor.id sensor) as [r|], kind; reflexivity.
Qed.

Lemma fold_update_location (ms : list Sensor.t) (group : SensorGroup.t) :
  SensorGroup.location (fold_left (update latestReadings) ms group) = SensorGroup.location group.
Proof.
  revert group. induction ms as [|s ms IH]; intros group; simpl; [reflexivity|].
  rewrite IH. apply updateGroup_location.
Qed.

Lemma fold_update_sensorIds (ms : list Sensor.t) (group : SensorGroup.t) :
  SensorGroup.sensorIds (fold_left (update latestReadings) ms group)
  = SensorGroup.sensorIds group ++ List.map Sensor.id ms.
Proof.
  revert group. induction ms as [|s ms IH]; intros group; simpl.
  - now rewrite app_nil_r.
  - rewrite IH. unfold update. rewrite updateGroup_sensorIds.
    now rewrite <- app_assoc.
Qed.

Lemma fold_update_status (ms : list Sensor.t) (group : SensorGroup.t) :
  SensorGroup.status (fold_left (update latestReadings) ms group)
  = resolveStatus (SensorGroup.status group :: List.map Sensor.status ms).
Proof.
  rewrite <- fold_worse_resolve.
  revert group. induction ms as [|s ms IH]; intros group; simpl; [reflexivity|].
  rewrite IH. unfold update. now rewrite updateGroup_status.
Qed.

Lemma fold_update_value (kind : DataType.t) (ms : list Sensor.t)
    (group : SensorGroup.t) :
  groupValue kind (fold_left (update latestReadings) ms group) =
  match last (readingsOf latestReadings (List.filter (hasKind kind) ms)) with
  | Some r => readingField kind r
  | None => groupValue kind group
  end.
Proof.
  revert group. induction ms as [|s ms IH]; intros group; simpl; [reflexivity|].
  rewrite IH. unfold update. rewrite updateGroup_value.
  destruct (hasKind kind s); simpl; [|reflexivity].
  unfold readingsOf. simpl.
  destruct (latestReadings !! Sensor.id s) as [r|]; simpl; [|reflexivity].
  rewrite last_cons. now destruct (last _).
Qed.

(** The fields of the group of a location, in terms of its members. *)
Lemma groupOf_fields (location : jsstring) (sensors : list Sensor.t)
    (g : SensorGroup.t) :
  groupOf latestReadings location sensors = Some g ->
  members location sensors <> []
  /\ SensorGroup.location g = location
  /\ SensorGroup.sensorIds g = List.map Sensor.id (members location sensors)
  /\ SensorGroup.status g
     = resolveStatus (List.map Sensor.status (members location sensors))
  /\ forall kind,
       groupValue kind g
       = lastField (readingField kind)
           (readingsOf latestReadings (membersOfKind kind location sensors)).
Proof.
  unfold groupOf, membersOfKind. destruct (members location sensors) as [|s ms] eqn:E;
    [discriminate|].
  intros Hg. injection Hg as <-. split; [discriminate|].
  change (fold_left (update latestReadings) ms
            (update latestReadings (newGroup location s) s))
    with (fold_left (update latestReadings) (s :: ms) (newGroup location s)).
  split; [now rewrite fold_update_location|].
  split; [now rewrite fold_update_sensorIds|].
  split.
  - rewrite fold_update_status. simpl.
    now rewrite resolveStatus_cons_cons, worse_idem.
  - intros kind. rewrite fold_update_value. unfold lastField.
    destruct (last _); [reflexivity|]. now destruct kind.
Qed.
End GroupFields.

(** The groups returned are the groups of the locations that have
    members. *)
Lemma groupSensorsByLocation_In `{Host} (sensors : list Sensor.t)
    (latestReadings : gmap jsstring SensorReading.t) (g : SensorGroup.t) :
  In g (groupSensorsByLocation sensors latestReadings) <->
  groupOf latestReadings (SensorGroup.location g) sensors = Some g.
Proof.
  unfold groupSensorsByLocation. rewrite sort_In.
  rewrite wellKeyed_values.
  - now rewrite groupOf_fold.
  - apply fold_addSensor_wellKeyed. split; [constructor|]. intros k v [].
Qed.

Lemma members_In (location : jsstring) (sensors : list Sensor.t) (s : Sensor.t) :
  In s (members location sensors) <->
  In s sensors
  /\ isDeviceName (extractLocation (Sensor.friendlyName s)) = false
  /\ extractLocation (Sensor.friendlyName s) = location.
Proof.
  unfold members, isMember. rewrite filter_In, andb_true_iff, negb_true_iff,
    bool_decide_eq_true. tauto.
Qed.



Section Aggregator.
Context `{Host}.
Variable sensors : list Sensor.t.
Variable latestReadings : gmap jsstring SensorReading.t.

(** C2: the status of every group returned is ['error'] when a member
    has status ['error'], else ['offline'] when a member has status
    ['offline'], else ['online'], the members being the sensors whose
    identifiers the group lists; and the group of the same location has
    the same status for every order of the input sensors. *)
Theorem group_status_precedence (g : SensorGroup.t) :
  In g (groupSensorsByLocation sensors latestReadings) ->
  let ms := members (SensorGroup.location g) sensors in
  SensorGroup.sensorIds g = List.map Sensor.id ms
  /\ ((exists s, In s ms /\ Sensor.status s = Status.error) ->
      SensorGroup.status g = Status.error)
  /\ ((forall s, In s ms -> Sensor.status s <> Status.error) ->
      (exists s, In s ms /\ Sensor.status s = Status.offline) ->
      SensorGroup.status g = Status.offline)
  /\ ((forall s, In s ms -> Sensor.status s <> Status.error) ->
      (forall s, In s ms -> Sensor.status s <> Status.offline) ->
      SensorGroup.status g = Status.online)
  /\ (forall sensors' g',
         Permutation sensors sensors' ->
         In g' (groupSensorsByLocation sensors' latestReadings) ->
         SensorGroup.location g' = SensorGroup.location g ->
         SensorGroup.status g' = SensorGroup.status g).
Proof.
  intros Hin ms. apply groupSensorsByLocation_In, groupOf_fields in Hin.
  destruct Hin as (_ & _ & Hids & Hst & _). fold ms in Hids, Hst.
  destruct (resolveStatus_spec (List.map Sensor.status ms)) as (Herr & Hoff & Hon).
  split; [exact Hids|]. rewrite Hst. split; [|split; [|split]].
  - intros (s & Hs & E). apply Herr. exists (Sensor.status s). split; [|exact E].
    now apply in_map.
  - intros Hne (s & Hs & E). apply Hoff.
    + intros st Hst'. apply in_map_iff in Hst'. destruct Hst' as (s' & <- & Hs').
      now apply Hne.
    + exists (Sensor.status s). split; [|exact E]. now apply in_map.
  - intros Hne Hno. apply Hon. intros st Hst'.
    apply in_map_iff in Hst'. destruct Hst' as (s' & <- & Hs').
    specialize (Hne s' Hs'). specialize (Hno s' Hs').
    destruct (Sensor.status s'); congruence.
  - intros sensors' g' Hperm Hin' Hloc.
    apply groupSensorsByLocation_In, groupOf_fields in Hin'.
    destruct Hin' as (_ & _ & _ & Hst' & _). rewrite Hst', Hloc.
    apply resolveStatus_ext. intros st. rewrite !in_map_iff.
    split; intros (s & E & Hs); exists s; split; auto;
      apply members_In; apply members_In in Hs;
      destruct Hs as (Hs & Hdev & Hl); repeat split; auto.
    + eapply Permutation_in; [symmetry; exact Hperm|exact Hs].
    + eapply Permutation_in; [exact Hperm|exact Hs].
Qed.

(** C6: no group is filed under a location that is taken for a device
    name, and every identifier a group lists is that of a sensor of the
    input whose location is the group's and is not taken for a device
    name.  So a sensor whose extracted location matches a device
    pattern has no group of its own, and its identifier, which no other
    sensor of the input bears, stands in no group's list.  The name
    "IKEA of Sweden RODRET Dimmer Battery" is such a name. *)
Theorem device_names_discarded :
  (forall g, In g (groupSensorsByLocation sensors latestReadings) ->
     isDeviceName (SensorGroup.location g) = false
     /\ forall i, In i (SensorGroup.sensorIds g) ->
          exists s, In s sensors /\ Sensor.id s = i
                    /\ extractLocation (Sensor.friendlyName s) = SensorGroup.location g
                    /\ isDeviceName (extractLocation (Sensor.friendlyName s)) = false)
  /\ (forall sensor,
         In sensor sensors ->
         isDeviceName (extractLocation (Sensor.friendlyName sensor)) = true ->
         (forall s, In s sensors -> Sensor.id s = Sensor.id sensor -> s = sensor) ->
         forall g, In g (groupSensorsByLocation sensors latestReadings) ->
           SensorGroup.location g <> extractLocation (Sensor.friendlyName sensor)
           /\ ~ In (Sensor.id sensor) (SensorGroup.sensorIds g))
  /\ isDeviceName (extractLocation (str "IKEA of Sweden RODRET Dimmer Battery"))
     = true.
Proof.
  assert (forall g, In g (groupSensorsByLocation sensors latestReadings) ->
            isDeviceName (SensorGroup.location g) = false
            /\ forall i, In i (SensorGroup.sensorIds g) ->
                 exists s, In s sensors /\ Sensor.id s = i
                   /\ extractLocation (Sensor.friendlyName s) = SensorGroup.location g
                   /\ isDeviceName (extractLocation (Sensor.friendlyName s)) = false)
    as Hgroups.
  { intros g Hin. apply groupSensorsByLocation_In, groupOf_fields in Hin.
    destruct Hin as (Hne & _ & Hids & _). split.
    - destruct (members (SensorGroup.location g) sensors) as [|s ms] eqn:E;
        [contradiction|].
      assert (In s (members (SensorGroup.location g) sensors)) as Hs
          by (rewrite E; now left).
      apply members_In in Hs. destruct Hs as (_ & Hdev & Hl). now rewrite <- Hl.
    - intros i Hi. rewrite Hids in Hi. apply in_map_iff in Hi.
      destruct Hi as (s & <- & Hs). apply members_In in Hs.
      exists s. tauto. }
  split; [exact Hgroups|]. split; [|vm_compute; reflexivity].
  intros sensor Hin Hdev Huniq g Hg. destruct (Hgroups g Hg) as [Hloc Hids]. split.
  - intros E. rewrite E in Hloc. congruence.
  - intros Hi. destruct (Hids _ Hi) as (s & Hs & Hid & _ & Hnd).
    rewrite (Huniq s Hs Hid) in Hnd. congruence.
Qed.


End Aggregator.

(** ** Order of the output *)





(** ** Location extraction *)












(** * The properties on the sample data *)

Lemma sampleGroup_returned :
  In sampleGroup (@groupSensorsByLocation digitsHost sampleSensors sampleReadings).
Proof. vm_compute. left. reflexivity. Defined.

(** A pass over three sensors of which the second answers with a state
    that is no number: two rows are stored. *)
Lemma collection_failure_isolation_witness :
  exists results db',
    @collectResults digitsHost sampleClient [sensor_temp; sensor_hum; sensor_bat] []
      = (Ok results, db')
    /\ results !! 1%nat = Some false
    /\ length db' = 2%nat.
Proof.
  destruct (@collection_failure_isolation digitsHost sampleClient
              [sensor_temp; sensor_hum; sensor_bat] [])
    as (results & db' & Hres & _ & _ & _ & Hfail & _ & new & Hnew & _ & Hone).
  exists results, db'. split; [exact Hres|]. split.
  - apply (Hfail 1%nat sensor_hum); reflexivity.
  - destruct (Hone [sensor_temp] sensor_hum [sensor_bat]) as [_ Hlen].
    + reflexivity.
    + reflexivity.
    + intros sensor [<-|[<-|[]]]; reflexivity.
    + rewrite Hnew. exact Hlen.
Defined.

Lemma group_status_precedence_witness :
  SensorGroup.status sampleGroup = Status.offline.
Proof.
  apply (@group_status_precedence digitsHost sampleSensors sampleReadings sampleGroup
           sampleGroup_returned).
  - intros s Hs. vm_compute in Hs.
    destruct Hs as [<-|[<-|[<-|[]]]]; discriminate.
  - exists sensor_bat. split; [|reflexivity].
    vm_compute. right. right. left. reflexivity.
Defined.


Lemma device_names_discarded_witness :
  SensorGroup.location sampleGroup
    <> extractLocation (Sensor.friendlyName sensor_ikea)
  /\ ~ In (Sensor.id sensor_ikea) (SensorGroup.sensorIds sampleGroup).
Proof.
  apply (proj1 (proj2 (@device_names_discarded digitsHost sampleSensors sampleReadings))
           sensor_ikea).
  - vm_compute. do 4 right. left. reflexivity.
  - vm_compute. reflexivity.
  - intros s Hs Hid. unfold sampleSensors in Hs.
    destruct Hs as [<-|[<-|[<-|[<-|[<-|[]]]]]];
      try reflexivity; vm_compute in Hid; discriminate.
  - exact sampleGroup_returned.
Defined.

Lemma fetcher_reading_has_value_witness :
  hasValue (@buildReading digitsHost sensor_temp
              (stateOf "sensor.buero_temperature" "22") (numberOfN 22)) = true.
Proof.
  apply (proj1 (proj2 (@fetcher_reading_has_value digitsHost sampleClient)) sensor_temp).
  vm_compute. reflexivity.
Defined.




(** * Properties of the further code *)

(** ** Discovery Service *)

Lemma startsWith_split (s pat : jsstring) :
  startsWith s pat = true -> s = pat ++ skipn (length pat) s.
Proof.
  revert s. induction pat as [|p pat IH]; intros s Hs; [reflexivity|].
  destruct s as [|c s]; [discriminate|].
  simpl in Hs. apply andb_true_iff in Hs. destruct Hs as [Hc Hs].
  apply N.eqb_eq in Hc. subst c. simpl. f_equal. now apply IH.
Qed.

Lemma replace_prefix (s pat : jsstring) :
  startsWith s pat = true -> pat ++ replace s pat [] = s.
Proof.
  intros Hs. destruct s as [|c s]; cbn [replace]; rewrite Hs; cbn [app];
    symmetry; now apply startsWith_split.
Qed.

Lemma omap_cons_match {A B} (f : A -> option B) (x : A) (l : list A) :
  omap f (x :: l) = match f x with
                    | Some y => y :: omap f l
                    | None => omap f l
                    end.
Proof. reflexivity. Qed.

Section Discovery.
Context `{Host}.

Lemma mapStateToSensor_Some (state : HomeAssistantState.t) (sensor : Sensor.t) :
  mapStateToSensor state = Some sensor ->
  getSensorType state = Some (Sensor.type sensor)
  /\ Sensor.entityId sensor = HomeAssistantState.entity_id state
  /\ Sensor.id sensor = replace (HomeAssistantState.entity_id state) (str "sensor.") []
  /\ Sensor.friendlyName sensor
     = orString (HomeAssistantState.friendly_name (HomeAssistantState.attributes state))
                (HomeAssistantState.entity_id state)
  /\ Sensor.status sensor = Status.online.
Proof.
  unfold mapStateToSensor. destruct (getSensorType state) as [type|]; [|discriminate].
  intros [= <-]. simpl. auto.
Qed.

Lemma getSensorType_not_both (state : HomeAssistantState.t) :
  getSensorType state <> Some SensorType.both.
Proof.
  unfold getSensorType.
  destruct (_ || _); [discriminate|]. destruct (_ || _); discriminate.
Qed.

Lemma discovered_origin (client : HomeAssistantClient) (sensors : list Sensor.t)
    (sensor : Sensor.t) :
  discoverSensors client = Ok sensors -> In sensor sensors ->
  exists states state,
    getAllStates client = Ok states /\ In state states
    /\ isSensorEntity state = true /\ mapStateToSensor state = Some sensor.
Proof.
  unfold discoverSensors. destruct (getAllStates client) as [states|e]; [|discriminate].
  intros [= <-] Hin. apply list_elem_of_In, list_elem_of_omap in Hin.
  destruct Hin as (state & Hstate & Hmap).
  apply list_elem_of_In, filter_In in Hstate. destruct Hstate as [Hstate Hns].
  eauto 8.
Qed.

(** X1: discovery passes the failure of the snapshot on and yields no
    roster then.  When the snapshot arrives, the roster holds, in the
    order of the snapshot, one sensor for each state of the "sensor"
    namespace that the classifier accepts and nothing else; every such
    sensor is online and of kind temperature or humidity, never both. *)
Theorem discoverSensors_outcome (client : HomeAssistantClient) :
  (forall error, getAllStates client = Throw error ->
                 discoverSensors client = Throw error)
  /\ (forall states, getAllStates client = Ok states ->
        exists sensors,
          discoverSensors client = Ok sensors
          /\ (length sensors <= length states)%nat
          /\ List.map Sensor.entityId sensors
             = List.map HomeAssistantState.entity_id
                 (List.filter (fun state => isSensorEntity state
                                            && bool_decide (is_Some (getSensorType state)))
                              states)
          /\ forall sensor, In sensor sensors ->
               Sensor.status sensor = Status.online
               /\ Sensor.type sensor <> SensorType.both
               /\ exists state, In state states
                    /\ isSensorEntity state = true
                    /\ getSensorType state = Some (Sensor.type sensor)
                    /\ Sensor.entityId sensor = HomeAssistantState.entity_id state).
Proof.
  split.
  - intros error He. unfold discoverSensors. now rewrite He.
  - intros states Hs.
    assert (discoverSensors client
            = Ok (omap mapStateToSensor (List.filter isSensorEntity states))) as E
        by (unfold discoverSensors; now rewrite Hs).
    eexists. split; [exact E|]. split; [|split].
    + clear. induction states as [|state states IH]; [simpl; lia|].
      cbn [List.filter]. destruct (isSensorEntity state); [|simpl; lia].
      rewrite omap_cons_match. destruct (mapStateToSensor state); simpl; lia.
    + clear. induction states as [|state states IH]; [reflexivity|].
      cbn [List.filter]. destruct (isSensorEntity state); cbn [andb]; [|exact IH].
      rewrite omap_cons_match.
      destruct (mapStateToSensor state) as [sensor|] eqn:Hmap.
      * pose proof (mapStateToSensor_Some _ _ Hmap) as (Htype & Hent & _).
        rewrite Htype. rewrite bool_decide_eq_true_2 by eauto.
        cbn [List.map]. now rewrite IH, Hent.
      * unfold mapStateToSensor in Hmap.
        destruct (getSensorType state); [discriminate|].
        rewrite bool_decide_eq_false_2 by (intros [? ?]; discriminate). exact IH.
    + intros sensor Hin.
      destruct (discovered_origin client _ sensor E Hin)
        as (states' & state & Hs' & Hstate & Hns & Hmap).
      rewrite Hs in Hs'. injection Hs' as <-.
      apply mapStateToSensor_Some in Hmap.
      destruct Hmap as (Htype & Hent & _ & _ & Hst).
      split; [exact Hst|]. split.
      * intros Eb. rewrite Eb in Htype. now apply getSensorType_not_both in Htype.
      * exists state. auto.
Qed.

(** X2: the stable identifier of a discovered sensor is its entity
    identifier without the leading "sensor.": putting the prefix back
    gives the entity identifier.  Hence a snapshot in which no entity
    identifier occurs twice yields a roster in which no identifier occurs
    twice. *)
Theorem discovered_identifiers (client : HomeAssistantClient)
    (states : list HomeAssistantState.t) (sensors : list Sensor.t) :
  getAllStates client = Ok states ->
  discoverSensors client = Ok sensors ->
  (forall sensor, In sensor sensors ->
     Sensor.entityId sensor = str "sensor." ++ Sensor.id sensor)
  /\ (List.NoDup (List.map HomeAssistantState.entity_id states) ->
      List.NoDup (List.map Sensor.id sensors)).
Proof.
  intros Hs Hd.
  assert (forall sensor, In sensor sensors ->
            Sensor.entityId sensor = str "sensor." ++ Sensor.id sensor) as Hid.
  { intros sensor Hin.
    destruct (discovered_origin client _ sensor Hd Hin)
      as (states' & state & _ & _ & Hns & Hmap).
    apply mapStateToSensor_Some in Hmap. destruct Hmap as (_ & Hent & Hi & _).
    rewrite Hi, Hent. symmetry. now apply replace_prefix. }
  split; [exact Hid|]. intros Hnd.
  assert (List.NoDup (List.map Sensor.entityId sensors)) as Hne.
  { unfold discoverSensors in Hd. rewrite Hs in Hd. injection Hd as <-.
    clear Hs Hid. induction states as [|state states IH]; simpl; [constructor|].
    simpl in Hnd. apply List.NoDup_cons_iff in Hnd. destruct Hnd as [Hnotin Hnd].
    destruct (isSensorEntity state); simpl; [|now apply IH].
    destruct (mapStateToSensor state) as [sensor|] eqn:Hmap; simpl; [|now apply IH].
    constructor; [|now apply IH].
    apply mapStateToSensor_Some in Hmap. destruct Hmap as (_ & Hent & _).
    rewrite Hent. intros Hin. apply Hnotin.
    apply in_map_iff in Hin. destruct Hin as (s' & Hs' & Hin').
    apply list_elem_of_In, list_elem_of_omap in Hin'.
    destruct Hin' as (state' & Hstate' & Hmap').
    apply mapStateToSensor_Some in Hmap'. destruct Hmap' as (_ & Hent' & _).
    apply list_elem_of_In, filter_In in Hstate'. destruct Hstate' as [Hstate' _].
    apply in_map_iff. exists state'. split; [congruence|exact Hstate']. }
  clear Hs Hd Hnd. induction sensors as [|sensor sensors IH]; simpl; [constructor|].
  simpl in Hne. apply List.NoDup_cons_iff in Hne. destruct Hne as [Hnotin Hne].
  constructor.
  - intros Hin. apply Hnotin. apply in_map_iff in Hin.
    destruct Hin as (s' & Hs' & Hin'). apply in_map_iff. exists s'. split; [|exact Hin'].
    rewrite (Hid s') by now right. rewrite (Hid sensor) by now left. now rewrite Hs'.
  - apply IH; [|exact Hne]. intros s' Hs'. apply Hid. now right.
Qed.

(** X3: the display name of a discovered sensor is never empty: it is the
    [friendly_name] attribute when that is present and not empty, and the
    entity identifier otherwise. *)
Theorem discovered_friendlyName (client : HomeAssistantClient)
    (sensors : list Sensor.t) (sensor : Sensor.t) :
  discoverSensors client = Ok sensors -> In sensor sensors ->
  Sensor.friendlyName sensor <> []
  /\ exists state,
       mapStateToSensor state = Some sensor
       /\ match HomeAssistantState.friendly_name (HomeAssistantState.attributes state) with
          | Some (c :: name) => Sensor.friendlyName sensor = c :: name
          | _ => Sensor.friendlyName sensor = HomeAssistantState.entity_id state
          end.
Proof.
  intros Hd Hin.
  destruct (discovered_origin client _ sensor Hd Hin)
    as (states & state & _ & _ & Hns & Hmap).
  pose proof (mapStateToSensor_Some _ _ Hmap) as (_ & _ & _ & Hname & _).
  assert (HomeAssistantState.entity_id state <> []) as Hne.
  { intros E. unfold isSensorEntity in Hns. rewrite E in Hns. vm_compute in Hns.
    discriminate. }
  split.
  - rewrite Hname. unfold orString.
    destruct (HomeAssistantState.friendly_name _) as [[|c name]|]; auto.
  - exists state. split; [exact Hmap|]. rewrite Hname. unfold orString.
    destruct (HomeAssistantState.friendly_name _) as [[|c name]|]; reflexivity.
Qed.

(** X4: the reading that the fetcher builds for a discovered sensor
    carries the value in exactly one field: the temperature for a sensor
    classified by a temperature signal, the humidity otherwise. *)
Theorem discovered_reading_one_field (client : HomeAssistantClient)
    (sensors : list Sensor.t) (sensor : Sensor.t)
    (state : HomeAssistantState.t) (value : number) :
  discoverSensors client = Ok sensors -> In sensor sensors ->
  let r := buildReading sensor state value in
  (Sensor.type sensor = SensorType.temperature
   /\ SensorReading.temperature r = Some value /\ SensorReading.humidity r = None)
  \/ (Sensor.type sensor = SensorType.humidity
      /\ SensorReading.temperature r = None /\ SensorReading.humidity r = Some value).
Proof.
  intros Hd Hin.
  destruct (discovered_origin client _ sensor Hd Hin)
    as (states & st & _ & _ & _ & Hmap).
  apply mapStateToSensor_Some in Hmap. destruct Hmap as (Htype & _).
  unfold buildReading. destruct (Sensor.type sensor) eqn:E; simpl; auto.
  now apply getSensorType_not_both in Htype.
Qed.

(** X5: the groups of a discovered roster are all online: discovery marks
    every sensor online, and a group of online members is online. *)
Theorem discovered_groups_online (client : HomeAssistantClient)
    (sensors : list Sensor.t)
    (latestReadings : gmap jsstring SensorReading.t) (g : SensorGroup.t) :
  discoverSensors client = Ok sensors ->
  In g (groupSensorsByLocation sensors latestReadings) ->
  SensorGroup.status g = Status.online.
Proof.
  intros Hd Hg. apply groupSensorsByLocation_In, groupOf_fields in Hg.
  destruct Hg as (_ & _ & _ & Hst & _). rewrite Hst.
  apply resolveStatus_spec. intros st Hin.
  apply in_map_iff in Hin. destruct Hin as (sensor & <- & Hm).
  apply members_In in Hm. destruct Hm as (Hin & _).
  destruct (discovered_origin client _ sensor Hd Hin) as (? & state & _ & _ & _ & Hmap).
  now apply mapStateToSensor_Some in Hmap.
Qed.
End Discovery.

(** ** In-memory stores *)

Lemma store_get_set (k k' : jsstring) (v : list SensorReading.t) (d : DataStore.t) :
  DataStore.get k' (DataStore.set k v d)
  = if bool_decide (k = k') then Some v else DataStore.get k' d.
Proof.
  induction d as [|[k0 v0] d IH]; simpl.
  - reflexivity.
  - destruct (bool_decide_reflect (k0 = k)) as [->|Hne]; simpl.
    + destruct (bool_decide (k = k')); reflexivity.
    + rewrite IH. destruct (bool_decide_reflect (k0 = k')) as [->|Hne'].
      * rewrite bool_decide_eq_false_2 by congruence. reflexivity.
      * reflexivity.
Qed.

Lemma store_get_In (k : jsstring) (v : list SensorReading.t) (d : DataStore.t) :
  DataStore.get k d = Some v -> In (k, v) d.
Proof.
  induction d as [|[k0 v0] d IH]; simpl; [discriminate|].
  destruct (bool_decide_reflect (k0 = k)) as [->|Hne].
  - intros [= ->]. now left.
  - intros Hg. right. auto.
Qed.

Lemma store_get_None (k : jsstring) (d : DataStore.t) :
  DataStore.get k d = None <-> ~ In k (List.map fst d).
Proof.
  induction d as [|[k0 v0] d IH]; simpl.
  - tauto.
  - destruct (bool_decide_reflect (k0 = k)) as [->|Hne].
    + split; [discriminate|]. intros Hn. exfalso. apply Hn. now left.
    + rewrite IH. tauto.
Qed.

Lemma store_In_get (k : jsstring) (v : list SensorReading.t) (d : DataStore.t) :
  List.NoDup (List.map fst d) -> In (k, v) d -> DataStore.get k d = Some v.
Proof.
  induction d as [|[k0 v0] d IH]; simpl; [tauto|].
  intros Hnd Hin. apply List.NoDup_cons_iff in Hnd. destruct Hnd as [Hnotin Hnd].
  destruct Hin as [[= -> ->]|Hin].
  - now rewrite bool_decide_eq_true_2.
  - rewrite bool_decide_eq_false_2; [auto|].
    intros ->. apply Hnotin. apply (in_map fst) in Hin. exact Hin.
Qed.

Lemma store_set_keys (k : jsstring) (v : list SensorReading.t) (d : DataStore.t) :
  List.map fst (DataStore.set k v d)
  = if DataStore.has k d then List.map fst d else List.map fst d ++ [k].
Proof.
  unfold DataStore.has. induction d as [|[k0 v0] d IH]; simpl; [reflexivity|].
  destruct (bool_decide_reflect (k0 = k)) as [->|Hne]; simpl; [reflexivity|].
  rewrite IH. destruct (DataStore.get k d); reflexivity.
Qed.

Lemma store_In_set (k k' : jsstring) (v v' : list SensorReading.t) (d : DataStore.t) :
  In (k', v') (DataStore.set k v d) -> (k', v') = (k, v) \/ In (k', v') d.
Proof.
  induction d as [|[k0 v0] d IH]; simpl.
  - intros [E|[]]. now left.
  - destruct (bool_decide (k0 = k)); simpl; intros [E|Hin]; auto.
    destruct (IH Hin); auto.
Qed.

Lemma store_set_keysOnce (k : jsstring) (v : list SensorReading.t) (d : DataStore.t) :
  storeKeysOnce d -> storeKeysOnce (DataStore.set k v d).
Proof.
  unfold storeKeysOnce. intros Hnd. rewrite store_set_keys. unfold DataStore.has.
  destruct (DataStore.get k d) eqn:Hg; [exact Hnd|].
  apply store_get_None in Hg. apply List.NoDup_app. repeat split.
  - exact Hnd.
  - constructor; [simpl; tauto|constructor].
  - intros k' Hk' [<-|[]]. contradiction.
Qed.

Lemma store_set_app (k : jsstring) (v l : list SensorReading.t)
    (done rest : DataStore.t) :
  ~ In k (List.map fst done) ->
  DataStore.set k v (done ++ (k, l) :: rest) = done ++ (k, v) :: rest.
Proof.
  induction done as [|[k0 v0] done IH]; simpl; intros Hn.
  - now rewrite bool_decide_eq_true_2.
  - rewrite bool_decide_eq_false_2 by tauto. f_equal. apply IH. tauto.
Qed.

Lemma MAX_POINTS_positive : (1 <= DataStore.MAX_POINTS_PER_SENSOR)%nat.
Proof. unfold DataStore.MAX_POINTS_PER_SENSOR. lia. Qed.

Lemma capped_last (l : list SensorReading.t) (r : SensorReading.t) :
  last (capped (l ++ [r])) = Some r.
Proof.
  unfold capped. pose proof MAX_POINTS_positive as Hmax.
  destruct (Nat.ltb_spec DataStore.MAX_POINTS_PER_SENSOR (length (l ++ [r]))) as [Hlt|Hge].
  - destruct l as [|x l]; [simpl in Hlt; lia|]. simpl. apply last_snoc.
  - apply last_snoc.
Qed.

Lemma capped_length (l : list SensorReading.t) (r : SensorReading.t) :
  (length l <= DataStore.MAX_POINTS_PER_SENSOR)%nat ->
  (length (capped (l ++ [r])) <= DataStore.MAX_POINTS_PER_SENSOR)%nat.
Proof.
  unfold capped. intros Hl.
  destruct (Nat.ltb_spec DataStore.MAX_POINTS_PER_SENSOR (length (l ++ [r]))) as [Hlt|Hge];
    [|exact Hge].
  rewrite length_app in Hlt. simpl in Hlt.
  destruct l as [|x l]; simpl in *; [lia|]. rewrite length_app. simpl. lia.
Qed.

Lemma store_add_get (r : SensorReading.t) (d : DataStore.t) (sensorId : jsstring) :
  DataStore.get sensorId (DataStore.add r d)
  = if bool_decide (SensorReading.sensorId r = sensorId)
    then Some (capped (DataStore.getAll (SensorReading.sensorId r) d ++ [r]))
    else DataStore.get sensorId d.
Proof.
  unfold DataStore.add, DataStore.getAll, DataStore.has, capped.
  destruct (DataStore.get (SensorReading.sensorId r) d) as [l|] eqn:Hg; simpl.
  - rewrite Hg. simpl. now rewrite store_get_set.
  - set (sid := SensorReading.sensorId r) in *.
    rewrite (store_get_set sid sid).
    rewrite (bool_decide_eq_true_2 (sid = sid)) by reflexivity. simpl.
    rewrite !store_get_set.
    destruct (bool_decide (sid = sensorId)); [reflexivity|exact eq_refl].
Qed.

Lemma store_add_keys (r : SensorReading.t) (d : DataStore.t) :
  DataStore.getSensorIds (DataStore.add r d)
  = if DataStore.has (SensorReading.sensorId r) d then DataStore.getSensorIds d
    else DataStore.getSensorIds d ++ [SensorReading.sensorId r].
Proof.
  unfold DataStore.add, DataStore.getSensorIds.
  destruct (DataStore.has (SensorReading.sensorId r) d) eqn:Hh; simpl.
  - rewrite store_set_keys. now rewrite Hh.
  - rewrite !store_set_keys. rewrite Hh.
    unfold DataStore.has at 1. rewrite store_get_set.
    now rewrite bool_decide_eq_true_2.
Qed.

(** X6: a reading that has been added is the latest reading of its
    sensor and is among all of them; the arrays and latest readings of
    the other sensors are as before; and the sensor is appended to the
    list of sensor identifiers when it is new, which is otherwise
    unchanged. *)
Theorem store_add_lookup (r : SensorReading.t) (d : DataStore.t) :
  DataStore.getLatest (SensorReading.sensorId r) (DataStore.add r d) = Some r
  /\ In r (DataStore.getAll (SensorReading.sensorId r) (DataStore.add r d))
  /\ (forall sensorId, sensorId <> SensorReading.sensorId r ->
        DataStore.getAll sensorId (DataStore.add r d) = DataStore.getAll sensorId d
        /\ DataStore.getLatest sensorId (DataStore.add r d)
           = DataStore.getLatest sensorId d)
  /\ DataStore.getSensorIds (DataStore.add r d)
     = (if DataStore.has (SensorReading.sensorId r) d then DataStore.getSensorIds d
        else DataStore.getSensorIds d ++ [SensorReading.sensorId r]).
Proof.
  split; [|split; [|split]].
  - unfold DataStore.getLatest. rewrite store_add_get.
    rewrite bool_decide_eq_true_2 by reflexivity. apply capped_last.
  - unfold DataStore.getAll at 1. rewrite store_add_get.
    rewrite bool_decide_eq_true_2 by reflexivity. simpl.
    pose proof (capped_last (DataStore.getAll (SensorReading.sensorId r) d) r) as Hl.
    apply list_elem_of_In. now apply last_Some_elem_of.
  - intros sensorId Hne. unfold DataStore.getAll, DataStore.getLatest.
    rewrite store_add_get. rewrite bool_decide_eq_false_2 by congruence. auto.
  - apply store_add_keys.
Qed.

Lemma applyOp_keysOnce (d : DataStore.t) (op : storeOp) :
  storeKeysOnce d -> storeKeysOnce (applyOp d op).
Proof.
  intros Hk. destruct op as [r|c|]; simpl.
  - unfold DataStore.add. apply store_set_keysOnce.
    destruct (negb _); [now apply store_set_keysOnce|exact Hk].
  - unfold DataStore.evictOldData.
    assert (forall es acc, storeKeysOnce (snd acc) ->
              storeKeysOnce
                (snd (fold_left
                        (fun '(evictedCount, data) '(sensorId, readings) =>
                           ((evictedCount
                             + (length readings
                                - length (List.filter
                                            (fun reading =>
                                               (c <=? SensorReading.timestamp reading)%Z)
                                            readings)))%nat,
                            DataStore.set sensorId
                              (List.filter
                                 (fun reading => (c <=? SensorReading.timestamp reading)%Z)
                                 readings) data))
                        es acc))) as Hfold.
    { induction es as [|[k l] es IH]; intros [n acc] Hacc; simpl; [exact Hacc|].
      apply IH. simpl. now apply store_set_keysOnce. }
    now apply Hfold.
  - constructor.
Qed.

Lemma runOps_keysOnce (ops : list storeOp) : storeKeysOnce (runOps ops).
Proof.
  unfold runOps.
  assert (forall d, storeKeysOnce d -> storeKeysOnce (fold_left applyOp ops d)) as Hgen.
  { induction ops as [|op ops IH]; intros d Hd; simpl; [exact Hd|].
    apply IH. now apply applyOp_keysOnce. }
  apply Hgen. constructor.
Qed.

Lemma evictOldData_outcome (c : Z) (d : DataStore.t) :
  storeKeysOnce d ->
  DataStore.evictOldData c d = (removedCount c d, List.map (evictEntry c) d).
Proof.
  unfold DataStore.evictOldData, storeKeysOnce. intros Hnd.
  assert (forall es done n,
            List.NoDup (List.map fst (done ++ es)) ->
            fold_left
              (fun '(evictedCount, data) '(sensorId, readings) =>
                 ((evictedCount
                   + (length readings
                      - length (List.filter
                                  (fun reading =>
                                     (c <=? SensorReading.timestamp reading)%Z)
                                  readings)))%nat,
                  DataStore.set sensorId
                    (List.filter
                       (fun reading => (c <=? SensorReading.timestamp reading)%Z)
                       readings) data))
              es (n, done ++ es)
            = ((n + removedCount c es)%nat, done ++ List.map (evictEntry c) es)) as Hgen.
  { induction es as [|[k l] es IH]; intros done n Hk.
    - simpl. unfold removedCount. simpl. f_equal. lia.
    - cbn [fold_left]. rewrite store_set_app.
      + rewrite (cons_middle _ done es), (app_assoc done). rewrite IH.
        * unfold removedCount. cbn [List.map list_sum snd].
          rewrite <- app_assoc. f_equal. unfold recent. simpl. lia.
        * rewrite <- app_assoc. simpl.
          rewrite List.map_app in *. simpl in *. exact Hk.
      + rewrite List.map_app in Hk. simpl in Hk.
        apply List.NoDup_remove_2 in Hk. intros Hin. apply Hk.
        apply in_or_app. now left. }
  exact (Hgen d [] 0%nat Hnd).
Qed.

Lemma store_get_evicted (c : Z) (d : DataStore.t) (sensorId : jsstring) :
  DataStore.get sensorId (List.map (evictEntry c) d)
  = recent c <$> DataStore.get sensorId d.
Proof.
  induction d as [|[k l] d IH]; simpl; [reflexivity|].
  destruct (bool_decide (k = sensorId)); [reflexivity|exact IH].
Qed.

Lemma recent_idem (c : Z) (l : list SensorReading.t) :
  recent c (recent c l) = recent c l.
Proof.
  unfold recent. apply filter_all. intros r Hr. apply filter_In in Hr. tauto.
Qed.

Lemma recent_length (c : Z) (l : list SensorReading.t) :
  (length (recent c l) <= length l)%nat.
Proof.
  unfold recent. induction l as [|r l IH]; simpl; [lia|].
  destruct (_ <=? _)%Z; simpl; lia.
Qed.

Lemma totalPoints_sum (d : DataStore.t) :
  totalPoints d = list_sum (List.map (fun entry => length (snd entry)) d).
Proof.
  unfold totalPoints, DataStore.getStats. cbn [fst].
  assert (forall (ls : list (list SensorReading.t)) n,
            fold_left (fun totalPoints readings => (totalPoints + length readings)%nat)
                      ls n
            = (n + list_sum (List.map (fun l => length l) ls))%nat) as Hgen.
  { induction ls as [|l ls IH]; intros n; simpl; [lia|]. rewrite IH. lia. }
  rewrite Hgen, List.map_map. reflexivity.
Qed.

Lemma applyOp_bounded (d : DataStore.t) (op : storeOp) :
  storeKeysOnce d -> storeBounded d -> storeBounded (applyOp d op).
Proof.
  intros Hk Hb. destruct op as [r|c|]; simpl.
  - intros k l Hin. unfold DataStore.add in Hin.
    apply store_In_set in Hin. destruct Hin as [[= -> ->]|Hin].
    + apply capped_length.
      destruct (DataStore.has (SensorReading.sensorId r) d) eqn:Hh; simpl.
      * unfold DataStore.has in Hh.
        destruct (DataStore.get (SensorReading.sensorId r) d) as [l|] eqn:Hg;
          [|discriminate].
        simpl. apply store_get_In in Hg. eapply Hb, Hg.
      * rewrite store_get_set, bool_decide_eq_true_2 by reflexivity. simpl. lia.
    + destruct (negb _); [|eapply Hb, Hin].
      apply store_In_set in Hin. destruct Hin as [[= -> ->]|Hin]; [simpl; lia|].
      eapply Hb, Hin.
  - rewrite evictOldData_outcome by exact Hk. simpl.
    intros k l Hin. apply in_map_iff in Hin. destruct Hin as ([k' l'] & [= <- <-] & Hin).
    pose proof (recent_length c l'). specialize (Hb k' l' Hin). simpl. lia.
  - intros k l [].
Qed.

Lemma runOps_bounded (ops : list storeOp) : storeBounded (runOps ops).
Proof.
  unfold runOps.
  assert (forall d, storeKeysOnce d -> storeBounded d ->
                    storeBounded (fold_left applyOp ops d)) as Hgen.
  { induction ops as [|op ops IH]; intros d Hk Hb; simpl; [exact Hb|].
    apply IH; [now apply applyOp_keysOnce|now apply applyOp_bounded]. }
  apply Hgen; [constructor|]. intros k l [].
Qed.

(** X7: every store that is built from the empty store by additions,
    evictions and clearing holds each sensor once and at most
    [MAX_POINTS_PER_SENSOR] readings per sensor.  An addition appends the
    reading to the array of its sensor; when the array is full, the
    oldest reading is dropped to make room. *)
Theorem store_capacity (ops : list storeOp) :
  let d := runOps ops in
  storeBounded d
  /\ storeKeysOnce d
  /\ (forall sensorId,
        (length (DataStore.getAll sensorId d) <= DataStore.MAX_POINTS_PER_SENSOR)%nat)
  /\ (forall r,
        let old := DataStore.getAll (SensorReading.sensorId r) d in
        DataStore.getAll (SensorReading.sensorId r) (DataStore.add r d)
        = if (length old <? DataStore.MAX_POINTS_PER_SENSOR)%nat then old ++ [r]
          else tail old ++ [r]).
Proof.
  intros d. pose proof (runOps_bounded ops) as Hb. pose proof (runOps_keysOnce ops) as Hk.
  fold d in Hb, Hk.
  assert (forall sensorId,
            (length (DataStore.getAll sensorId d) <= DataStore.MAX_POINTS_PER_SENSOR)%nat)
    as Hlen.
  { intros sensorId. unfold DataStore.getAll.
    destruct (DataStore.get sensorId d) as [l|] eqn:Hg; simpl; [|lia].
    apply store_get_In in Hg. eapply Hb, Hg. }
  split; [exact Hb|]. split; [exact Hk|]. split; [exact Hlen|].
  intros r old. unfold DataStore.getAll at 1. rewrite store_add_get.
  rewrite bool_decide_eq_true_2 by reflexivity. simpl. fold old.
  specialize (Hlen (SensorReading.sensorId r)). fold old in Hlen.
  unfold capped. rewrite length_app. simpl.
  pose proof MAX_POINTS_positive as Hmax.
  destruct (Nat.ltb_spec (length old) DataStore.MAX_POINTS_PER_SENSOR) as [Hlt|Hge].
  - destruct (Nat.ltb_spec DataStore.MAX_POINTS_PER_SENSOR (length old + 1)); [lia|].
    reflexivity.
  - destruct (Nat.ltb_spec DataStore.MAX_POINTS_PER_SENSOR (length old + 1)); [|lia].
    destruct old as [|x old]; [simpl in Hge; lia|]. reflexivity.
Qed.

(** X8: on a store built by the program, eviction keeps, for every
    sensor, exactly the readings that are not older than the cut-off, in
    their order; it returns the number of readings that went; it keeps
    every sensor identifier, also those whose array becomes empty; and a
    second eviction with the same cut-off removes nothing. *)
Theorem store_evictOldData (ops : list storeOp) (cutoffDate : Z) :
  let d := runOps ops in
  exists n d',
    DataStore.evictOldData cutoffDate d = (n, d')
    /\ DataStore.getSensorIds d' = DataStore.getSensorIds d
    /\ (forall sensorId,
          DataStore.getAll sensorId d' = recent cutoffDate (DataStore.getAll sensorId d))
    /\ (n + totalPoints d' = totalPoints d)%nat
    /\ DataStore.evictOldData cutoffDate d' = (0%nat, d').
Proof.
  intros d. pose proof (runOps_keysOnce ops) as Hk. fold d in Hk.
  exists (removedCount cutoffDate d), (List.map (evictEntry cutoffDate) d).
  assert (DataStore.getSensorIds (List.map (evictEntry cutoffDate) d)
          = DataStore.getSensorIds d) as Hids.
  { unfold DataStore.getSensorIds. rewrite List.map_map. reflexivity. }
  split; [now apply evictOldData_outcome|]. split; [exact Hids|]. split; [|split].
  - intros sensorId. unfold DataStore.getAll. rewrite store_get_evicted.
    destruct (DataStore.get sensorId d); reflexivity.
  - rewrite !totalPoints_sum. unfold removedCount. clear.
    induction d as [|[k l] d IH]; simpl; [reflexivity|].
    pose proof (recent_length cutoffDate l). lia.
  - rewrite evictOldData_outcome.
    + f_equal.
      * unfold removedCount. clear. induction d as [|[k l] d IH]; simpl; [reflexivity|].
        rewrite recent_idem, IH. lia.
      * rewrite List.map_map. apply List.map_ext. intros [k l].
        unfold evictEntry. simpl. now rewrite recent_idem.
    + unfold storeKeysOnce. unfold DataStore.getSensorIds in Hids. now rewrite Hids.
Qed.
Lemma getAllLatest_lookup (d : DataStore.t) (sensorId : jsstring) :
  storeKeysOnce d ->
  DataStore.getAllLatest d !! sensorId = DataStore.getLatest sensorId d.
Proof.
  unfold DataStore.getAllLatest, DataStore.getLatest, storeKeysOnce.
  assert (forall es (acc : gmap jsstring SensorReading.t),
            List.NoDup (List.map fst es) ->
            fold_left
              (fun latest '(sensorId, readings) =>
                 match last readings with
                 | Some reading => <[sensorId := reading]> latest
                 | None => latest
                 end)
              es acc !! sensorId
            = match DataStore.get sensorId es with
              | Some readings =>
                match last readings with
                | Some reading => Some reading
                | None => acc !! sensorId
                end
              | None => acc !! sensorId
              end) as Hgen.
  { induction es as [|[k l] es IH]; intros acc Hnd; [reflexivity|].
    cbn [fold_left DataStore.get]. simpl in Hnd.
    apply List.NoDup_cons_iff in Hnd. destruct Hnd as [Hnotin Hnd].
    rewrite IH by exact Hnd.
    destruct (bool_decide_reflect (k = sensorId)) as [->|Hne].
    - apply store_get_None in Hnotin. rewrite Hnotin.
      destruct (last l); [apply lookup_insert_eq|reflexivity].
    - assert (forall acc' : gmap jsstring SensorReading.t,
                match last l with
                | Some reading => <[k := reading]> acc'
                | None => acc'
                end !! sensorId = acc' !! sensorId) as Hsame.
      { intros acc'. destruct (last l); [now apply lookup_insert_ne|reflexivity]. }
      rewrite Hsame. reflexivity. }
  intros Hnd. rewrite Hgen by exact Hnd.
  rewrite lookup_empty. destruct (DataStore.get sensorId d) as [l|]; [|reflexivity].
  now destruct (last l).
Qed.

Lemma last_filter_keep {A} (f : A -> bool) (l : list A) (x : A) :
  last l = Some x -> f x = true -> last (List.filter f l) = Some x.
Proof.
  intros Hl Hf. apply last_Some in Hl. destruct Hl as [l' ->].
  rewrite List.filter_app. simpl. rewrite Hf. apply last_snoc.
Qed.

(** X9: on a store built by the program, the map of latest readings has
    exactly the latest reading of every sensor that has one.  After an
    eviction, a sensor whose latest reading is not older than the
    cut-off keeps it; a sensor all of whose readings are older has no
    latest reading and no entry in the map of latest readings, but is
    still listed among the sensor identifiers. *)
Theorem store_latest_after_eviction (ops : list storeOp) (cutoffDate : Z) :
  let d := runOps ops in
  let d' := snd (DataStore.evictOldData cutoffDate d) in
  (forall sensorId, DataStore.getAllLatest d !! sensorId = DataStore.getLatest sensorId d)
  /\ (forall sensorId, DataStore.getAllLatest d' !! sensorId
                       = DataStore.getLatest sensorId d')
  /\ (forall sensorId r,
        DataStore.getLatest sensorId d = Some r ->
        (cutoffDate <= SensorReading.timestamp r)%Z ->
        DataStore.getLatest sensorId d' = Some r)
  /\ (forall sensorId,
        (forall r, In r (DataStore.getAll sensorId d) ->
                   (SensorReading.timestamp r < cutoffDate)%Z) ->
        DataStore.getLatest sensorId d' = None
        /\ DataStore.getAllLatest d' !! sensorId = None
        /\ (In sensorId (DataStore.getSensorIds d) ->
            In sensorId (DataStore.getSensorIds d'))).
Proof.
  intros d d'. pose proof (runOps_keysOnce ops) as Hk. fold d in Hk.
  assert (d' = List.map (evictEntry cutoffDate) d) as Ed'
      by (unfold d'; now rewrite evictOldData_outcome).
  assert (storeKeysOnce d') as Hk'.
  { rewrite Ed'. unfold storeKeysOnce. rewrite List.map_map. exact Hk. }
  assert (forall sensorId,
            DataStore.getLatest sensorId d'
            = match DataStore.get sensorId d with
              | Some l => last (recent cutoffDate l)
              | None => None
              end) as Hlatest.
  { intros sensorId. unfold DataStore.getLatest. rewrite Ed', store_get_evicted.
    destruct (DataStore.get sensorId d); reflexivity. }
  split; [intros; now apply getAllLatest_lookup|].
  split; [intros; now apply getAllLatest_lookup|]. split.
  - intros sensorId r Hr Hc. rewrite Hlatest. unfold DataStore.getLatest in Hr.
    destruct (DataStore.get sensorId d) as [l|]; [|discriminate].
    apply last_filter_keep; [exact Hr|]. now apply Z.leb_le.
  - intros sensorId Hold.
    assert (DataStore.getLatest sensorId d' = None) as Hnone.
    { rewrite Hlatest. unfold DataStore.getAll in Hold.
      destruct (DataStore.get sensorId d) as [l|]; [|reflexivity]. simpl in Hold.
      unfold recent. rewrite filter_none; [reflexivity|].
      intros r Hr. specialize (Hold r Hr). apply Z.leb_gt. exact Hold. }
    split; [exact Hnone|]. split.
    + now rewrite getAllLatest_lookup.
    + rewrite Ed'. unfold DataStore.getSensorIds. now rewrite List.map_map.
Qed.

(** ** In-memory collection *)

Section MemoryCollection.
Context `{Host}.
Variable client : HomeAssistantClient.

Lemma fetchSensorData_sensorId (sensor : Sensor.t) (r : SensorReading.t) :
  DataCollectionService.fetchSensorData client sensor = Some r ->
  SensorReading.sensorId r = Sensor.id sensor.
Proof.
  unfold DataCollectionService.fetchSensorData.
  destruct (getSensorState client _) as [state|e]; [|discriminate].
  destruct (isNaN _); [discriminate|]. intros [= <-].
  unfold buildReading. destruct (Sensor.type sensor); reflexivity.
Qed.

Lemma collectData_app (pre post : list Sensor.t) (d : DataStore.t) :
  DataCollectionService.collectData client (pre ++ post) d
  = DataCollectionService.collectData client post
      (DataCollectionService.collectData client pre d).
Proof.
  unfold DataCollectionService.collectData. now rewrite List.map_app, fold_left_app.
Qed.

Lemma collectData_other (sensors : list Sensor.t) (d : DataStore.t)
    (sensorId : jsstring) :
  (forall sensor, In sensor sensors -> Sensor.id sensor <> sensorId) ->
  DataStore.get sensorId (DataCollectionService.collectData client sensors d)
  = DataStore.get sensorId d.
Proof.
  revert d. induction sensors as [|sensor sensors IH]; intros d Hne; [reflexivity|].
  change (sensor :: sensors) with ([sensor] ++ sensors). rewrite collectData_app.
  rewrite IH by (intros s Hs; apply Hne; now right).
  unfold DataCollectionService.collectData. simpl.
  destruct (DataCollectionService.fetchSensorData client sensor) as [r|] eqn:Hf;
    [|reflexivity].
  rewrite store_add_get. rewrite bool_decide_eq_false_2; [reflexivity|].
  rewrite (fetchSensorData_sensorId _ _ Hf). apply Hne. now left.
Qed.

(** X10: after a pass of the in-memory collection over a roster in which
    no identifier occurs twice, the latest reading of every sensor whose
    fetch yielded a reading is that reading, whatever the store held
    before; the sensors that are not in the roster keep their readings.
    The rows that the worker's pass appends to the table for the same
    roster are among these latest readings. *)
Theorem memory_collection_latest (roster : list Sensor.t) (d : DataStore.t) :
  List.NoDup (List.map Sensor.id roster) ->
  let d' := DataCollectionService.collectData client roster d in
  (forall sensor r,
      In sensor roster ->
      DataCollectionService.fetchSensorData client sensor = Some r ->
      DataStore.getLatest (Sensor.id sensor) d' = Some r)
  /\ (forall sensorId,
        ~ In sensorId (List.map Sensor.id roster) ->
        DataStore.getAll sensorId d' = DataStore.getAll sensorId d)
  /\ (forall r, In r (persisted client roster) ->
                DataStore.getLatest (SensorReading.sensorId r) d' = Some r).
Proof.
  intros Hnd d'.
  assert (forall sensor r,
            In sensor roster ->
            DataCollectionService.fetchSensorData client sensor = Some r ->
            DataStore.getLatest (Sensor.id sensor) d' = Some r) as Hlatest.
  { intros sensor r Hin Hf. apply in_split in Hin. destruct Hin as (pre & post & ->).
    unfold d'. rewrite collectData_app.
    change (sensor :: post) with ([sensor] ++ post). rewrite collectData_app.
    unfold DataStore.getLatest. rewrite collectData_other.
    - unfold DataCollectionService.collectData at 1. simpl. rewrite Hf.
      rewrite store_add_get.
      rewrite bool_decide_eq_true_2 by (now apply fetchSensorData_sensorId).
      apply capped_last.
    - intros s Hs E. rewrite List.map_app in Hnd. simpl in Hnd.
      apply List.NoDup_remove_2 in Hnd. apply Hnd. apply in_or_app. right.
      rewrite <- E. now apply in_map. }
  split; [exact Hlatest|]. split.
  - intros sensorId Hnot. unfold DataStore.getAll, d'. rewrite collectData_other;
      [reflexivity|].
    intros s Hs E. apply Hnot. rewrite <- E. now apply in_map.
  - intros r Hr. apply in_persisted in Hr. destruct Hr as (sensor & Hin & Hf & _).
    assert (DataCollectionService.fetchSensorData client sensor = Some r) as Hf'
        by exact Hf.
    rewrite (fetchSensorData_sensorId _ _ Hf'). now apply Hlatest.
Qed.
End MemoryCollection.

(** ** Reading repository, continued *)

Lemma byTimestampAsc_total (a b : SensorReading.t) :
  leBy byTimestampAsc a b \/ leBy byTimestampAsc b a.
Proof. unfold leBy, byTimestampAsc. lia. Qed.

Lemma byTimestampAsc_trans (a b c : SensorReading.t) :
  leBy byTimestampAsc a b -> leBy byTimestampAsc b c -> leBy byTimestampAsc a c.
Proof. unfold leBy, byTimestampAsc. lia. Qed.

Lemma byTimestampDesc_total (a b : SensorReading.t) :
  leBy byTimestampDesc a b \/ leBy byTimestampDesc b a.
Proof. unfold leBy, byTimestampDesc. lia. Qed.

Lemma byTimestampDesc_trans (a b c : SensorReading.t) :
  leBy byTimestampDesc a b -> leBy byTimestampDesc b c -> leBy byTimestampDesc a c.
Proof. unfold leBy, byTimestampDesc. lia. Qed.

Lemma StronglySorted_weaken {A} (R R' : A -> A -> Prop) (l : list A) :
  (forall a b, R a b -> R' a b) -> StronglySorted R l -> StronglySorted R' l.
Proof.
  intros Himp. induction 1 as [|x l Hs IH Hall]; constructor; [exact IH|].
  eapply List.Forall_impl; [|exact Hall]. intros y. apply Himp.
Qed.

(** X11: [getReadingsByTimeRange] returns exactly the rows of the sensor
    whose timestamp lies between the two dates, both ends included, each
    as often as the table holds it, in ascending order of timestamp, and
    leaves the table as it is; it returns nothing when the start is
    after the end. *)
Theorem getReadingsByTimeRange_exact (sensorId : jsstring) (startDate endDate : Z)
    (db : table) :
  exists rows,
    getReadingsByTimeRange sensorId startDate endDate db = (Ok rows, db)
    /\ (forall row, In row rows <->
          In row db /\ SensorReading.sensorId row = sensorId
          /\ (startDate <= SensorReading.timestamp row <= endDate)%Z)
    /\ Permutation rows
         (List.filter (fun row =>
                         ofSensor sensorId row
                         && (startDate <=? SensorReading.timestamp row)%Z
                         && (SensorReading.timestamp row <=? endDate)%Z) db)
    /\ StronglySorted
         (fun a b => (SensorReading.timestamp a <= SensorReading.timestamp b)%Z) rows
    /\ ((endDate < startDate)%Z -> rows = []).
Proof.
  eexists. split; [reflexivity|]. split; [|split; [|split]].
  - intros row. rewrite sort_In, filter_In, !andb_true_iff, !Z.leb_le.
    unfold ofSensor. rewrite bool_decide_eq_true. tauto.
  - apply sort_Permutation.
  - eapply StronglySorted_weaken;
      [|apply (sort_StronglySorted byTimestampAsc
                 byTimestampAsc_total byTimestampAsc_trans)].
    intros a b. unfold leBy, byTimestampAsc. lia.
  - intros Hlt. rewrite filter_none; [reflexivity|].
    intros row _. destruct (Z.leb_spec startDate (SensorReading.timestamp row));
      destruct (Z.leb_spec (SensorReading.timestamp row) endDate);
      rewrite ?andb_false_r; try reflexivity. lia.
Qed.

Lemma sorted_desc_head (row : SensorReading.t) (rows l : list SensorReading.t) :
  sort byTimestampDesc l = row :: rows ->
  In row l
  /\ forall row', In row' l ->
                  (SensorReading.timestamp row' <= SensorReading.timestamp row)%Z.
Proof.
  intros E.
  pose proof (sort_StronglySorted byTimestampDesc
                byTimestampDesc_total byTimestampDesc_trans l) as Hs.
  rewrite E in Hs. apply StronglySorted_inv in Hs. destruct Hs as [_ Hall].
  split.
  - apply (sort_In byTimestampDesc). rewrite E. now left.
  - intros row' Hin. apply (sort_In byTimestampDesc) in Hin. rewrite E in Hin.
    destruct Hin as [<-|Hin]; [lia|].
    rewrite List.Forall_forall in Hall. specialize (Hall row' Hin).
    unfold leBy, byTimestampDesc in Hall. lia.
Qed.

Lemma getLatestReading_outcome (sensorId : jsstring) (db : table) :
  (exists row, getLatestReading sensorId db = (Ok (Some row), db)
               /\ newestOf sensorId db row)
  \/ (getLatestReading sensorId db = (Ok None, db)
      /\ forall row, In row db -> SensorReading.sensorId row <> sensorId).
Proof.
  unfold getLatestReading.
  destruct (sort byTimestampDesc (List.filter (ofSensor sensorId) db))
    as [|row rows] eqn:E.
  - right. split; [reflexivity|]. intros row Hin Hid.
    assert (In row (sort byTimestampDesc (List.filter (ofSensor sensorId) db))) as Hs.
    { apply sort_In, filter_In. split; [exact Hin|].
      unfold ofSensor. now apply bool_decide_eq_true. }
    rewrite E in Hs. destruct Hs.
  - left. exists row. split; [reflexivity|].
    apply sorted_desc_head in E. destruct E as [Hin Hmax].
    apply filter_In in Hin. destruct Hin as [Hin Hid].
    unfold ofSensor in Hid. apply bool_decide_eq_true in Hid.
    split; [exact Hin|]. split; [exact Hid|].
    intros row' Hin' Hid'. apply Hmax. apply filter_In. split; [exact Hin'|].
    unfold ofSensor. now apply bool_decide_eq_true.
Qed.

(** X12: [getLatestReading] returns [null] exactly when the table has no
    row of the sensor; otherwise it returns a row of the sensor that no
    row of the sensor is newer than.  The table is left as it is. *)
Theorem getLatestReading_newest (sensorId : jsstring) (db : table) :
  exists result,
    getLatestReading sensorId db = (Ok result, db)
    /\ (result = None <->
        forall row, In row db -> SensorReading.sensorId row <> sensorId)
    /\ (forall row, result = Some row -> newestOf sensorId db row).
Proof.
  destruct (getLatestReading_outcome sensorId db)
    as [(row & E & Hnew)|[E Hnone]].
  - exists (Some row). split; [exact E|]. split.
    + split; [discriminate|]. intros Hno. destruct Hnew as (Hin & Hid & _).
      now destruct (Hno row Hin).
    + now intros row' [= <-].
  - exists None. split; [exact E|]. split; [tauto|discriminate].
Qed.
Lemma distinctOnSensor_In (seen : list jsstring) (rows : list SensorReading.t)
    (row : SensorReading.t) :
  In row (distinctOnSensor seen rows) ->
  ~ In (SensorReading.sensorId row) seen
  /\ exists pre post,
       rows = pre ++ row :: post
       /\ forall row', In row' pre ->
                       SensorReading.sensorId row' <> SensorReading.sensorId row.
Proof.
  revert seen. induction rows as [|r rows IH]; intros seen Hin; [destruct Hin|].
  cbn [distinctOnSensor] in Hin.
  destruct (bool_decide_reflect (SensorReading.sensorId r ∈ seen)) as [Hseen|Hnew].
  - destruct (IH _ Hin) as (Hns & pre & post & -> & Hpre). split; [exact Hns|].
    exists (r :: pre), post. split; [reflexivity|].
    intros row' [<-|Hin'] E; [|now apply (Hpre row')].
    apply Hns. rewrite <- E. now apply list_elem_of_In.
  - destruct Hin as [<-|Hin].
    + split; [now rewrite <- list_elem_of_In|]. exists [], rows. split; [reflexivity|].
      intros row' [].
    + destruct (IH _ Hin) as (Hns & pre & post & -> & Hpre).
      split; [intros Hs; apply Hns; now right|].
      exists (r :: pre), post. split; [reflexivity|].
      intros row' [<-|Hin'] E; [|now apply (Hpre row')].
      apply Hns. left. exact E.
Qed.

Lemma distinctOnSensor_complete (seen : list jsstring) (rows : list SensorReading.t)
    (row : SensorReading.t) :
  In row rows -> ~ In (SensorReading.sensorId row) seen ->
  exists row', In row' (distinctOnSensor seen rows)
               /\ SensorReading.sensorId row' = SensorReading.sensorId row.
Proof.
  revert seen. induction rows as [|r rows IH]; intros seen Hin Hns; [destruct Hin|].
  cbn [distinctOnSensor].
  destruct (bool_decide_reflect (SensorReading.sensorId r ∈ seen)) as [Hseen|Hnew].
  - destruct Hin as [<-|Hin]; [now apply list_elem_of_In in Hseen|]. now apply IH.
  - destruct Hin as [<-|Hin]; [exists r; split; [now left|reflexivity]|].
    destruct (decide (SensorReading.sensorId r = SensorReading.sensorId row)) as [E|Hne].
    + exists r. split; [now left|exact E].
    + destruct (IH (SensorReading.sensorId r :: seen) Hin) as (row' & Hin' & E').
      * intros [E|Hs]; [now apply Hne|now apply Hns].
      * exists row'. split; [now right|exact E'].
Qed.

Lemma fold_insert_Some (rows : list SensorReading.t)
    (acc : gmap jsstring SensorReading.t) (sensorId : jsstring) (row : SensorReading.t) :
  fold_left (fun readings r => <[SensorReading.sensorId r := r]> readings) rows acc
    !! sensorId = Some row ->
  (In row rows /\ SensorReading.sensorId row = sensorId) \/ acc !! sensorId = Some row.
Proof.
  revert acc. induction rows as [|r rows IH]; intros acc Hl; [now right|].
  cbn [fold_left] in Hl. destruct (IH _ Hl) as [[Hin E]|Hacc].
  - left. split; [now right|exact E].
  - destruct (decide (SensorReading.sensorId r = sensorId)) as [E|Hne].
    + subst sensorId. rewrite lookup_insert_eq in Hacc. injection Hacc as <-.
      left. split; [now left|reflexivity].
    + rewrite lookup_insert_ne in Hacc by exact Hne. now right.
Qed.

Lemma fold_insert_is_Some (rows : list SensorReading.t)
    (acc : gmap jsstring SensorReading.t) (sensorId : jsstring) :
  (exists row, In row rows /\ SensorReading.sensorId row = sensorId)
  \/ is_Some (acc !! sensorId) ->
  is_Some (fold_left (fun readings r => <[SensorReading.sensorId r := r]> readings)
                     rows acc !! sensorId).
Proof.
  revert acc. induction rows as [|r rows IH]; intros acc Hex.
  - destruct Hex as [(row & [] & _)|Hacc]. exact Hacc.
  - cbn [fold_left]. apply IH. destruct Hex as [(row & [<-|Hin] & E)|Hacc].
    + right. subst sensorId. rewrite lookup_insert_eq. eauto.
    + left. eauto.
    + right. destruct (decide (SensorReading.sensorId r = sensorId)) as [<-|Hne].
      * rewrite lookup_insert_eq. eauto.
      * now rewrite lookup_insert_ne.
Qed.

Lemma StronglySorted_after {A} (R : A -> A -> Prop) (pre post : list A) (x : A) :
  StronglySorted R (pre ++ x :: post) -> List.Forall (R x) post.
Proof.
  induction pre as [|y pre IH]; simpl; intros Hs;
    apply StronglySorted_inv in Hs; destruct Hs as [Hs Hall]; [exact Hall|now apply IH].
Qed.

Lemma getAllLatestReadings_lookup (db : table) (sensorId : jsstring) :
  exists latest,
    getAllLatestReadings db = (Ok latest, db)
    /\ (latest !! sensorId = None <->
        forall row, In row db -> SensorReading.sensorId row <> sensorId)
    /\ (forall row, latest !! sensorId = Some row -> newestOf sensorId db row).
Proof.
  eexists. split; [reflexivity|].
  set (sorted := sort byTimestampDesc db).
  set (rows := distinctOnSensor [] sorted).
  assert (forall row, In row sorted <-> In row db) as Hsorted
      by (intros row; apply sort_In).
  split.
  - split.
    + intros Hnone row Hin Hid.
      destruct (distinctOnSensor_complete [] sorted row) as (row' & Hin' & E');
        [now apply Hsorted|intros []|].
      fold rows in Hin'.
      destruct (fold_insert_is_Some rows ∅ sensorId) as [x Hx];
        [left; exists row'; split; [exact Hin'|congruence]|].
      rewrite Hx in Hnone. discriminate.
    + intros Hno. destruct (_ !! sensorId) as [row|] eqn:Hl; [|reflexivity].
      apply fold_insert_Some in Hl. destruct Hl as [[Hin E]|Hl].
      * apply distinctOnSensor_In in Hin. destruct Hin as (_ & pre & post & Es & _).
        exfalso. apply (Hno row); [|exact E].
        apply Hsorted. fold sorted in Es. rewrite Es. apply in_or_app. right. now left.
      * rewrite lookup_empty in Hl. discriminate.
  - intros row Hl. apply fold_insert_Some in Hl.
    destruct Hl as [[Hin E]|Hl]; [|rewrite lookup_empty in Hl; discriminate].
    apply distinctOnSensor_In in Hin. destruct Hin as (_ & pre & post & Es & Hpre).
    fold sorted in Es.
    assert (In row sorted) as Hrow by (rewrite Es; apply in_or_app; right; now left).
    split; [now apply Hsorted|]. split; [exact E|].
    intros row' Hin' E'. apply Hsorted in Hin'. rewrite Es in Hin'.
    apply in_app_or in Hin'. destruct Hin' as [Hin'|[<-|Hin']].
    + exfalso. apply (Hpre row' Hin'). congruence.
    + lia.
    + pose proof (sort_StronglySorted byTimestampDesc
                    byTimestampDesc_total byTimestampDesc_trans db) as Hs.
      fold sorted in Hs. rewrite Es in Hs. apply StronglySorted_after in Hs.
      rewrite List.Forall_forall in Hs. specialize (Hs row' Hin').
      unfold leBy, byTimestampDesc in Hs. lia.
Qed.

(** X13: the map that [getAllLatestReadings] returns has an entry for
    exactly the sensors that have a row in the table, and the entry of a
    sensor is a row of that sensor that no row of the sensor is newer
    than; its timestamp is the one of the row that [getLatestReading]
    returns for the sensor. *)
Theorem getAllLatestReadings_newest (db : table) :
  exists latest,
    getAllLatestReadings db = (Ok latest, db)
    /\ forall sensorId,
         (latest !! sensorId = None <->
          forall row, In row db -> SensorReading.sensorId row <> sensorId)
         /\ (forall row, latest !! sensorId = Some row -> newestOf sensorId db row)
         /\ exists one,
              getLatestReading sensorId db = (Ok one, db)
              /\ SensorReading.timestamp <$> one
                 = SensorReading.timestamp <$> (latest !! sensorId).
Proof.
  eexists. split; [reflexivity|]. intros sensorId.
  destruct (getAllLatestReadings_lookup db sensorId) as (latest & E & Hnone & Hsome).
  injection E as E. rewrite E. split; [exact Hnone|]. split; [exact Hsome|].
  destruct (getLatestReading_outcome sensorId db)
    as [(row & E1 & Hnew)|[E1 Hno]].
  - exists (Some row). split; [exact E1|].
    destruct (latest !! sensorId) as [row'|] eqn:Hl.
    + specialize (Hsome row' eq_refl).
      destruct Hnew as (Hin & Hid & Hmax), Hsome as (Hin' & Hid' & Hmax').
      specialize (Hmax row' Hin' Hid'). specialize (Hmax' row Hin Hid).
      simpl. f_equal. lia.
    + exfalso. destruct Hnew as (Hin & Hid & _).
      apply (proj1 Hnone eq_refl row Hin Hid).
  - exists None. split; [exact E1|].
    apply Hnone in Hno. now rewrite Hno.
Qed.
Lemma filter_app_last {A} (f : A -> bool) (l : list A) (x : A) :
  f x = false -> List.filter f (l ++ [x]) = List.filter f l.
Proof. intros Hf. rewrite List.filter_app. simpl. rewrite Hf. apply app_nil_r. Qed.

Lemma filter_filter_implied {A} (f g : A -> bool) (l : list A) :
  (forall x, f x = true -> g x = true) ->
  List.filter f (List.filter g l) = List.filter f l.
Proof.
  intros Himp. induction l as [|x l IH]; simpl; [reflexivity|].
  destruct (g x) eqn:Eg; simpl.
  - now rewrite IH.
  - destruct (f x) eqn:Ef; [|exact IH]. rewrite (Himp x Ef) in Eg. discriminate.
Qed.

(** X14: when the database accepts a reading that is newer than every row
    of its sensor, the reading is what [getLatestReading] returns for the
    sensor afterwards and what [getAllLatestReadings] holds for it; for
    every other sensor both answer as before. *)
Theorem insert_then_latest `{Host} (r : SensorReading.t) (db : table) :
  insertAccepted r = true ->
  (forall row, In row db -> SensorReading.sensorId row = SensorReading.sensorId r ->
               (SensorReading.timestamp row < SensorReading.timestamp r)%Z) ->
  exists db',
    insertReading r db = (Ok tt, db')
    /\ getLatestReading (SensorReading.sensorId r) db' = (Ok (Some r), db')
    /\ (exists latest, getAllLatestReadings db' = (Ok latest, db')
                       /\ latest !! SensorReading.sensorId r = Some r)
    /\ (forall sensorId, sensorId <> SensorReading.sensorId r ->
          fst (getLatestReading sensorId db') = fst (getLatestReading sensorId db)).
Proof.
  intros Hacc Hnewer. exists (db ++ [r]).
  assert (forall row, newestOf (SensorReading.sensorId r) (db ++ [r]) row -> row = r)
    as Honly.
  { intros row (Hin & Hid & Hmax).
    apply in_app_or in Hin. destruct Hin as [Hin|[<-|[]]]; [|reflexivity].
    specialize (Hnewer row Hin Hid).
    assert (In r (db ++ [r])) as Hr by (apply in_or_app; right; now left).
    specialize (Hmax r Hr eq_refl). lia. }
  split; [unfold insertReading; now rewrite Hacc|]. split; [|split].
  - destruct (getLatestReading_outcome (SensorReading.sensorId r) (db ++ [r]))
      as [(row & E & Hnew)|[E Hno]].
    + now rewrite E, (Honly row Hnew).
    + exfalso. apply (Hno r); [|reflexivity]. apply in_or_app. right. now left.
  - destruct (getAllLatestReadings_lookup (db ++ [r]) (SensorReading.sensorId r))
      as (latest & E & Hnone & Hsome).
    exists latest. split; [exact E|].
    destruct (latest !! SensorReading.sensorId r) as [row|] eqn:Hl.
    + now rewrite (Honly row (Hsome row eq_refl)).
    + exfalso. apply (proj1 Hnone eq_refl r); [|reflexivity].
      apply in_or_app. right. now left.
  - intros sensorId Hne. unfold getLatestReading.
    rewrite filter_app_last; [|unfold ofSensor; apply bool_decide_eq_false; congruence].
    destruct (firstn 1 _); reflexivity.
Qed.

(** X15: the retention delete does not touch what the queries return for
    the time from the cut-off on.  A time-range query whose start is not
    before the cut-off returns the same rows as before the delete; a
    sensor whose newest row is not older than the cut-off still has a
    newest row with that timestamp; a sensor all of whose rows are older
    has no latest reading afterwards. *)
Theorem retention_keeps_recent (cutoffDate : Z) (db : table) :
  let db' := snd (deleteOldReadings cutoffDate db) in
  (forall sensorId startDate endDate,
      (cutoffDate <= startDate)%Z ->
      fst (getReadingsByTimeRange sensorId startDate endDate db')
      = fst (getReadingsByTimeRange sensorId startDate endDate db))
  /\ (forall sensorId row,
        fst (getLatestReading sensorId db) = Ok (Some row) ->
        (cutoffDate <= SensorReading.timestamp row)%Z ->
        exists row',
          fst (getLatestReading sensorId db') = Ok (Some row')
          /\ SensorReading.timestamp row' = SensorReading.timestamp row)
  /\ (forall sensorId,
        (forall row, In row db -> SensorReading.sensorId row = sensorId ->
                     (SensorReading.timestamp row < cutoffDate)%Z) ->
        fst (getLatestReading sensorId db') = Ok None
        /\ exists latest, getAllLatestReadings db' = (Ok latest, db')
                          /\ latest !! sensorId = None).
Proof.
  intros db'.
  assert (db' = List.filter (fun r => negb (olderThan cutoffDate r)) db) as Edb
      by (unfold db'; now rewrite deleteOldReadings_outcome).
  assert (forall row, In row db' <->
                      In row db /\ (cutoffDate <= SensorReading.timestamp row)%Z) as Hin'.
  { intros row. rewrite Edb, filter_In. unfold olderThan.
    rewrite negb_true_iff, Z.ltb_ge. reflexivity. }
  split; [|split].
  - intros sensorId startDate endDate Hc. unfold getReadingsByTimeRange. simpl.
    f_equal. f_equal. rewrite Edb. apply filter_filter_implied.
    intros row Hrow. apply andb_true_iff in Hrow. destruct Hrow as [Hrow _].
    apply andb_true_iff in Hrow. destruct Hrow as [_ Hs]. apply Z.leb_le in Hs.
    unfold olderThan. apply negb_true_iff, Z.ltb_ge. lia.
  - intros sensorId row Hrow Hc.
    destruct (getLatestReading_outcome sensorId db) as [(r0 & E & Hnew)|[E _]];
      rewrite E in Hrow; simpl in Hrow; [|discriminate].
    injection Hrow as ->. destruct Hnew as (Hin & Hid & Hmax).
    destruct (getLatestReading_outcome sensorId db') as [(row' & E' & Hnew')|[E' Hno]].
    + exists row'. rewrite E'. split; [reflexivity|].
      destruct Hnew' as (Hinr & Hidr & Hmaxr).
      apply Hin' in Hinr. destruct Hinr as [Hinr _].
      specialize (Hmax row' Hinr Hidr).
      specialize (Hmaxr row (proj2 (Hin' row) (conj Hin Hc)) Hid). lia.
    + exfalso. apply (Hno row); [|exact Hid]. apply Hin'. auto.
  - intros sensorId Hold.
    assert (forall row, In row db' -> SensorReading.sensorId row <> sensorId) as Hno.
    { intros row Hrow Hid. apply Hin' in Hrow. destruct Hrow as [Hrow Hc].
      specialize (Hold row Hrow Hid). lia. }
    split.
    + destruct (getLatestReading_outcome sensorId db') as [(row' & E' & Hnew')|[E' _]];
        [|now rewrite E'].
      exfalso. destruct Hnew' as (Hinr & Hidr & _). now apply (Hno row').
    + destruct (getAllLatestReadings_lookup db' sensorId) as (latest & E & Hnone & _).
      exists latest. split; [exact E|]. now apply Hnone.
Qed.

Lemma batchValues_lookup (readings : list SensorReading.t) (i k : nat)
    (r : SensorReading.t) :
  readings !! i = Some r -> (k < 4)%nat ->
  batchValues readings !! (i * 4 + k)%nat
  = [PgText (SensorReading.sensorId r); PgTimestamp (SensorReading.timestamp r);
     PgDouble (SensorReading.temperature r); PgDouble (SensorReading.humidity r)] !! k.
Proof.
  revert i. induction readings as [|r0 readings IH]; intros i Hi Hk; [discriminate|].
  unfold batchValues. cbn [flat_map]. fold (batchValues readings).
  destruct i as [|i].
  - injection Hi as ->. simpl Nat.mul. simpl Nat.add.
    destruct k as [|[|[|[|k]]]]; [reflexivity..|lia].
  - simpl in Hi. rewrite lookup_app_r by (simpl; lia).
    replace (S i * 4 + k - length _)%nat with (i * 4 + k)%nat by (simpl; lia).
    now apply IH.
Qed.

(** X16: in the multi-row insert, the four placeholders of the tuple of a
    reading number the four values of that reading (identifier,
    timestamp, temperature, humidity, an absent value as [null]) in the
    list of values, which holds four values for every reading. *)
Theorem batch_placeholders_aligned (readings : list SensorReading.t) (i : nat)
    (r : SensorReading.t) :
  readings !! i = Some r ->
  length (batchValues readings) = (4 * length readings)%nat
  /\ exists p1 p2 p3 p4,
       batchPlaceholders readings !! i = Some (p1, p2, p3, p4)
       /\ (1 <= p1)%nat /\ (p4 <= length (batchValues readings))%nat
       /\ batchValues readings !! (p1 - 1)%nat = Some (PgText (SensorReading.sensorId r))
       /\ batchValues readings !! (p2 - 1)%nat
          = Some (PgTimestamp (SensorReading.timestamp r))
       /\ batchValues readings !! (p3 - 1)%nat
          = Some (PgDouble (SensorReading.temperature r))
       /\ batchValues readings !! (p4 - 1)%nat
          = Some (PgDouble (SensorReading.humidity r)).
Proof.
  intros Hi.
  assert (length (batchValues readings) = (4 * length readings)%nat) as Hlen.
  { clear. induction readings as [|r readings IH]; [reflexivity|].
    unfold batchValues. cbn [flat_map]. fold (batchValues readings).
    rewrite length_app, IH. simpl. lia. }
  split; [exact Hlen|].
  exists (i * 4 + 1)%nat, (i * 4 + 2)%nat, (i * 4 + 3)%nat, (i * 4 + 4)%nat.
  pose proof (lookup_lt_Some _ _ _ Hi) as Hlt.
  split; [unfold batchPlaceholders; rewrite list_lookup_imap, Hi; reflexivity|].
  split; [lia|]. split; [lia|].
  replace (i * 4 + 1 - 1)%nat with (i * 4 + 0)%nat by lia.
  replace (i * 4 + 2 - 1)%nat with (i * 4 + 1)%nat by lia.
  replace (i * 4 + 3 - 1)%nat with (i * 4 + 2)%nat by lia.
  replace (i * 4 + 4 - 1)%nat with (i * 4 + 3)%nat by lia.
  rewrite !(batchValues_lookup readings i _ r Hi) by lia. auto.
Qed.

(** ** History of a location *)

Lemma bucketGet_bucketSet (k k' : Z) (v : AggregatedReading.t) (m : bucketMap) :
  bucketGet k' (bucketSet k v m) = if (k =? k')%Z then Some v else bucketGet k' m.
Proof.
  induction m as [|[k0 v0] m IH]; simpl.
  - reflexivity.
  - destruct (Z.eqb_spec k0 k) as [->|Hne]; simpl.
    + destruct (k =? k')%Z; reflexivity.
    + rewrite IH. destruct (Z.eqb_spec k0 k') as [->|Hne'].
      * destruct (Z.eqb_spec k k'); [congruence|reflexivity].
      * reflexivity.
Qed.

Lemma bucketGet_In (k : Z) (v : AggregatedReading.t) (m : bucketMap) :
  bucketGet k m = Some v -> In (k, v) m.
Proof.
  induction m as [|[k0 v0] m IH]; simpl; [discriminate|].
  destruct (Z.eqb_spec k0 k) as [->|Hne].
  - intros [= ->]. now left.
  - intros Hg. right. auto.
Qed.

Lemma bucketGet_None (k : Z) (m : bucketMap) :
  bucketGet k m = None <-> ~ In k (List.map fst m).
Proof.
  induction m as [|[k0 v0] m IH]; simpl.
  - tauto.
  - destruct (Z.eqb_spec k0 k) as [->|Hne].
    + split; [discriminate|]. intros Hn. exfalso. apply Hn. now left.
    + rewrite IH. tauto.
Qed.

Lemma bucket_In_get (k : Z) (v : AggregatedReading.t) (m : bucketMap) :
  List.NoDup (List.map fst m) -> In (k, v) m -> bucketGet k m = Some v.
Proof.
  induction m as [|[k0 v0] m IH]; simpl; [tauto|].
  intros Hnd Hin. apply List.NoDup_cons_iff in Hnd. destruct Hnd as [Hnotin Hnd].
  destruct Hin as [[= -> ->]|Hin].
  - now rewrite Z.eqb_refl.
  - destruct (Z.eqb_spec k0 k) as [->|Hne]; [|auto].
    exfalso. apply Hnotin. apply (in_map fst) in Hin. exact Hin.
Qed.

Lemma bucketSet_keys (k : Z) (v : AggregatedReading.t) (m : bucketMap) :
  List.map fst (bucketSet k v m)
  = match bucketGet k m with
    | Some _ => List.map fst m
    | None => List.map fst m ++ [k]
    end.
Proof.
  induction m as [|[k0 v0] m IH]; simpl; [reflexivity|].
  destruct (Z.eqb_spec k0 k) as [->|Hne]; simpl; [reflexivity|].
  rewrite IH. destruct (bucketGet k m); reflexivity.
Qed.

Lemma In_bucketSet (k k' : Z) (v v' : AggregatedReading.t) (m : bucketMap) :
  In (k', v') (bucketSet k v m) -> (k', v') = (k, v) \/ In (k', v') m.
Proof.
  induction m as [|[k0 v0] m IH]; simpl.
  - intros [E|[]]. now left.
  - destruct (k0 =? k)%Z; simpl; intros [E|Hin]; auto.
    destruct (IH Hin); auto.
Qed.

Lemma fillBucket_timestamp (ty : option (option DataType.t)) (r : SensorReading.t)
    (a : AggregatedReading.t) :
  AggregatedReading.timestamp (fillBucket ty r a) = AggregatedReading.timestamp a.
Proof.
  unfold fillBucket.
  destruct ty as [[[]|]|], (SensorReading.temperature r), (SensorReading.humidity r);
    reflexivity.
Qed.

Lemma fillBucket_value (kind : DataType.t) (ty : option (option DataType.t))
    (r : SensorReading.t) (a : AggregatedReading.t) :
  bucketValue kind (fillBucket ty r a)
  = match (if bool_decide (ty = Some (Some kind)) then readingField kind r else None) with
    | Some value => Some value
    | None => bucketValue kind a
    end.
Proof.
  unfold fillBucket, readingField.
  destruct ty as [[[]|]|], kind, (SensorReading.temperature r),
    (SensorReading.humidity r); reflexivity.
Qed.

Lemma roundToSecond_spec (t : Z) :
  (roundToSecond t <= t < roundToSecond t + 1000)%Z
  /\ (roundToSecond t mod 1000 = 0)%Z.
Proof.
  unfold roundToSecond. split.
  - pose proof (Z.mod_pos_bound t 1000 ltac:(lia)).
    pose proof (Z.div_mod t 1000 ltac:(lia)). lia.
  - apply Z.mod_mul. lia.
Qed.

Section History.
Variable sensorTypeMap : gmap jsstring (option DataType.t).

Lemma addToBucket_keyed (m : bucketMap) (r : SensorReading.t) :
  bucketsKeyed m -> bucketsKeyed (addToBucket sensorTypeMap m r).
Proof.
  intros [Hnd Hkey]. unfold addToBucket.
  set (second := roundToSecond (SensorReading.timestamp r)). split.
  - rewrite bucketSet_keys. destruct (bucketGet second m) eqn:Hg; [exact Hnd|].
    apply bucketGet_None in Hg. apply List.NoDup_app. repeat split.
    + exact Hnd.
    + constructor; [simpl; tauto|constructor].
    + intros k Hk [<-|[]]. contradiction.
  - intros k v Hin. apply In_bucketSet in Hin. destruct Hin as [[= -> ->]|Hin]; [|eauto].
    rewrite fillBucket_timestamp.
    destruct (bucketGet second m) eqn:Hg; [|reflexivity].
    apply bucketGet_In in Hg. eauto.
Qed.

Lemma fold_addToBucket_keyed (readings : list SensorReading.t) (m : bucketMap) :
  bucketsKeyed m -> bucketsKeyed (fold_left (addToBucket sensorTypeMap) readings m).
Proof.
  revert m. induction readings as [|r readings IH]; simpl; intros m Hm; [exact Hm|].
  apply IH, addToBucket_keyed, Hm.
Qed.

Lemma bucketGet_fold (second : Z) (readings : list SensorReading.t) (m : bucketMap) :
  bucketGet second (fold_left (addToBucket sensorTypeMap) readings m)
  = match bucketGet second m with
    | Some a =>
      Some (fold_left (fun aggregated reading =>
                         fillBucket (sensorTypeMap !! SensorReading.sensorId reading)
                                    reading aggregated)
                      (List.filter (fun reading =>
                                      (roundToSecond (SensorReading.timestamp reading)
                                       =? second)%Z) readings)
                      a)
    | None => bucketOf sensorTypeMap second readings
    end.
Proof.
  revert m. induction readings as [|r readings IH]; intros m; simpl.
  - unfold bucketOf. simpl. destruct (bucketGet second m); reflexivity.
  - rewrite IH. unfold addToBucket at 1. rewrite bucketGet_bucketSet.
    unfold bucketOf. simpl.
    destruct (Z.eqb_spec (roundToSecond (SensorReading.timestamp r)) second) as [E|Hne].
    + rewrite E. destruct (bucketGet second m); reflexivity.
    + reflexivity.
Qed.

Lemma aggregateReadings_In (readings : list SensorReading.t)
    (a : AggregatedReading.t) :
  In a (aggregateReadings sensorTypeMap readings) <->
  bucketOf sensorTypeMap (AggregatedReading.timestamp a) readings = Some a.
Proof.
  unfold aggregateReadings. rewrite sort_In.
  pose proof (fold_addToBucket_keyed readings []) as [Hnd Hkey].
  { split; [constructor|]. intros k v []. }
  assert (bucketGet (AggregatedReading.timestamp a)
            (fold_left (addToBucket sensorTypeMap) readings [])
          = bucketOf sensorTypeMap (AggregatedReading.timestamp a) readings) as Hb
      by (now rewrite bucketGet_fold).
  rewrite <- Hb. split.
  - intros Hin. apply in_map_iff in Hin. destruct Hin as ([k v] & Hv & Hin).
    simpl in Hv. subst v. rewrite (Hkey _ _ Hin). now apply bucket_In_get.
  - intros Hg. apply bucketGet_In in Hg. apply (in_map snd) in Hg. exact Hg.
Qed.

Lemma fold_fill_timestamp (rs : list SensorReading.t) (a : AggregatedReading.t) :
  AggregatedReading.timestamp
    (fold_left (fun aggregated reading =>
                  fillBucket (sensorTypeMap !! SensorReading.sensorId reading)
                             reading aggregated) rs a)
  = AggregatedReading.timestamp a.
Proof.
  revert a. induction rs as [|r rs IH]; intros a; simpl; [reflexivity|].
  rewrite IH. apply fillBucket_timestamp.
Qed.

Lemma fold_fill_value (kind : DataType.t) (second : Z) (rs : list SensorReading.t)
    (a : AggregatedReading.t) :
  bucketValue kind
    (fold_left (fun aggregated reading =>
                  fillBucket (sensorTypeMap !! SensorReading.sensorId reading)
                             reading aggregated)
               (List.filter (fun reading =>
                               (roundToSecond (SensorReading.timestamp reading)
                                =? second)%Z) rs)
               a)
  = match last (contributions sensorTypeMap kind second rs) with
    | Some value => Some value
    | None => bucketValue kind a
    end.
Proof.
  revert a. induction rs as [|r rs IH]; intros a; [reflexivity|].
  unfold contributions. rewrite omap_cons_match. fold (contributions sensorTypeMap kind second rs).
  cbn [List.filter].
  destruct (roundToSecond (SensorReading.timestamp r) =? second)%Z; cbn [andb].
  - cbn [fold_left]. rewrite IH, fillBucket_value.
    destruct (if bool_decide _ then _ else _) as [value|]; [|reflexivity].
    rewrite last_cons. now destruct (last _).
  - apply IH.
Qed.

Lemma StronglySorted_strict {A} (f : A -> Z) (l : list A) :
  StronglySorted (fun a b => (f a <= f b)%Z) l ->
  List.NoDup (List.map f l) ->
  StronglySorted (fun a b => (f a < f b)%Z) l.
Proof.
  induction 1 as [|x l Hs IH Hall]; intros Hnd; [constructor|].
  simpl in Hnd. apply List.NoDup_cons_iff in Hnd. destruct Hnd as [Hnotin Hnd].
  constructor; [now apply IH|].
  rewrite List.Forall_forall in *. intros y Hy. specialize (Hall y Hy).
  assert (f y <> f x) by (intros E; apply Hnotin; rewrite <- E; now apply in_map).
  lia.
Qed.

(** X18: the history of a location has one entry for every second in
    which a reading falls and no other.  The timestamp of an entry is a
    whole second, the one that the timestamps of its readings are
    rounded down to (not to the nearest one), and the entries come in
    strictly ascending order of timestamp. *)
Theorem history_buckets (readings : list SensorReading.t) :
  let out := aggregateReadings sensorTypeMap readings in
  StronglySorted (fun a b => (AggregatedReading.timestamp a
                              < AggregatedReading.timestamp b)%Z) out
  /\ (forall a, In a out ->
        (AggregatedReading.timestamp a mod 1000 = 0)%Z
        /\ exists r, In r readings
             /\ (AggregatedReading.timestamp a <= SensorReading.timestamp r
                 < AggregatedReading.timestamp a + 1000)%Z)
  /\ (forall r, In r readings ->
        exists a, In a out
          /\ (AggregatedReading.timestamp a <= SensorReading.timestamp r
              < AggregatedReading.timestamp a + 1000)%Z)
  /\ (length out <= length readings)%nat.
Proof.
  intros out.
  pose proof (fold_addToBucket_keyed readings []) as [Hnd Hkey].
  { split; [constructor|]. intros k v []. }
  set (m := fold_left (addToBucket sensorTypeMap) readings []) in *.
  assert (List.map AggregatedReading.timestamp (List.map snd m) = List.map fst m) as Hts.
  { rewrite List.map_map. apply List.map_ext_in. intros [k v] Hin. simpl. now apply Hkey. }
  assert (forall a, In a out ->
            exists r, In r readings
              /\ AggregatedReading.timestamp a = roundToSecond (SensorReading.timestamp r))
    as Horigin.
  { intros a Hin. apply aggregateReadings_In in Hin. unfold bucketOf in Hin.
    destruct (List.filter _ readings) as [|r rs] eqn:Ef; [discriminate|].
    assert (In r (List.filter
                    (fun reading => (roundToSecond (SensorReading.timestamp reading)
                                     =? AggregatedReading.timestamp a)%Z) readings)) as Hr
        by (rewrite Ef; now left).
    apply filter_In in Hr. destruct Hr as [Hr Ht]. apply Z.eqb_eq in Ht.
    exists r. auto. }
  split; [|split; [|split]].
  - unfold out, aggregateReadings. fold m. apply StronglySorted_strict.
    + eapply StronglySorted_weaken;
        [|apply (sort_StronglySorted
                   (fun a b => (AggregatedReading.timestamp a
                                - AggregatedReading.timestamp b)%Z))].
      * intros a b. unfold leBy. lia.
      * intros a b. unfold leBy. lia.
      * intros a b c. unfold leBy. lia.
    + eapply Permutation_NoDup.
      * symmetry. apply Permutation_map. apply sort_Permutation.
      * rewrite Hts. exact Hnd.
  - intros a Hin. destruct (Horigin a Hin) as (r & Hr & E).
    pose proof (roundToSecond_spec (SensorReading.timestamp r)) as [Hb Hm].
    rewrite E. split; [exact Hm|]. exists r. auto.
  - intros r Hr.
    destruct (bucketOf sensorTypeMap (roundToSecond (SensorReading.timestamp r)) readings)
      as [a|] eqn:Eb.
    + assert (AggregatedReading.timestamp a = roundToSecond (SensorReading.timestamp r))
        as Et.
      { unfold bucketOf in Eb. destruct (List.filter _ readings) as [|r0 rs];
          [discriminate|]. injection Eb as <-.
        now rewrite fold_fill_timestamp, fillBucket_timestamp. }
      exists a. split.
      * apply aggregateReadings_In. now rewrite Et.
      * rewrite Et. apply roundToSecond_spec.
    + exfalso. unfold bucketOf in Eb.
      destruct (List.filter _ readings) as [|r0 rs] eqn:Ef; [|discriminate].
      assert (In r (List.filter
                      (fun reading => (roundToSecond (SensorReading.timestamp reading)
                                       =? roundToSecond (SensorReading.timestamp r))%Z)
                      readings)) as Hin
          by (apply filter_In; split; [exact Hr|apply Z.eqb_refl]).
      rewrite Ef in Hin. destruct Hin.
  - unfold out, aggregateReadings. fold m.
    rewrite (Permutation_length (sort_Permutation _ _)), length_map.
    rewrite <- (length_map fst). clear Hts Horigin out.
    assert (forall rs m0, (length (List.map fst (fold_left (addToBucket sensorTypeMap) rs m0))
                           <= length m0 + length rs)%nat) as Hgen.
    { induction rs as [|r rs IH]; intros m0; simpl; [rewrite length_map; lia|].
      etransitivity; [apply IH|]. unfold addToBucket.
      rewrite <- (length_map fst (bucketSet _ _ _)), bucketSet_keys.
      destruct (bucketGet _ m0); rewrite ?length_app, length_map; simpl; lia. }
    specialize (Hgen readings []). simpl in Hgen. exact Hgen.
Qed.

(** X19: in every entry of the history, the value of a data kind is the
    one of the last reading of that second, in the order of the
    readings, whose sensor is of that kind and which has the value
    (temperature for temperature, humidity for humidity and battery).  A
    reading without the value, of a sensor of another or of no kind, or
    of a sensor that is not in the map, changes nothing: an entry keeps
    a value once it has one. *)
Theorem history_bucket_values (readings : list SensorReading.t)
    (a : AggregatedReading.t) :
  In a (aggregateReadings sensorTypeMap readings) ->
  forall kind,
    bucketValue kind a
    = last (contributions sensorTypeMap kind (AggregatedReading.timestamp a) readings).
Proof.
  intros Hin kind. apply aggregateReadings_In in Hin. unfold bucketOf in Hin.
  pose proof (fold_fill_value kind (AggregatedReading.timestamp a) readings
                (newBucket (AggregatedReading.timestamp a))) as Hv.
  destruct (List.filter _ readings) as [|r rs]; [discriminate|].
  injection Hin as Hin. cbn [fold_left] in Hv. rewrite Hin in Hv. rewrite Hv.
  destruct (last _); [reflexivity|]. now destruct kind.
Qed.
End History.

(** ** Sensor repository *)

Lemma entityTaken_false (sensor : Sensor.t) (tbl : sensorsTable) :
  namespaced sensor -> fromDiscovery tbl -> entityTaken sensor tbl = false.
Proof.
  intros Hs Htbl. unfold entityTaken.
  destruct (existsb _ _) eqn:E; [|reflexivity].
  apply existsb_exists in E. destruct E as ([id row] & Hin & Hc).
  apply list_elem_of_In, elem_of_map_to_list in Hin. simpl in Hc.
  apply andb_true_iff in Hc. destruct Hc as [Hid He].
  apply negb_true_iff, bool_decide_eq_false in Hid.
  apply bool_decide_eq_true in He.
  destruct (Htbl id row Hin) as [Hrow Hns]. unfold namespaced in *.
  rewrite Hs, Hns, Hrow in He. apply app_inv_head in He. congruence.
Qed.

Lemma upsert_fromDiscovery (sensor : Sensor.t) (tbl : sensorsTable) :
  namespaced sensor -> fromDiscovery tbl ->
  fromDiscovery (<[Sensor.id sensor := sensor]> tbl).
Proof.
  intros Hs Htbl id row Hl.
  destruct (decide (Sensor.id sensor = id)) as [<-|Hne].
  - rewrite lookup_insert_eq in Hl. injection Hl as <-. auto.
  - rewrite lookup_insert_ne in Hl by exact Hne. now apply Htbl.
Qed.

Section SensorRepository.
Context `{SensorStore}.

(** X20: an accepted upsert makes the sensor the row of its identifier:
    [getSensorById] returns it, whether the identifier was present or
    not; the rows of the other identifiers are as before; and the same
    upsert a second time changes nothing.  A rejected upsert leaves the
    table as it was. *)
Theorem upsertSensor_lookup (sensor : Sensor.t) (tbl : sensorsTable) :
  (forall tbl', upsertSensor sensor tbl = (Ok tt, tbl') ->
     getSensorById (Sensor.id sensor) tbl' = Some sensor
     /\ (forall id, id <> Sensor.id sensor ->
                    getSensorById id tbl' = getSensorById id tbl)
     /\ (entityTaken sensor tbl' = false -> upsertSensor sensor tbl' = (Ok tt, tbl')))
  /\ (forall error tbl', upsertSensor sensor tbl = (Throw error, tbl') -> tbl' = tbl).
Proof.
  unfold upsertSensor, getSensorById. split.
  - intros tbl' Hu.
    destruct (upsertAccepted sensor) eqn:Ha; [|discriminate]. simpl in Hu.
    destruct (entityTaken sensor tbl); [discriminate|]. injection Hu as <-.
    split; [apply lookup_insert_eq|]. split.
    + intros id Hne. now apply lookup_insert_ne.
    + intros Hfree. rewrite Hfree. simpl. now rewrite insert_insert_eq.
  - intros error tbl' Hu. destruct (_ && _); [discriminate|]. now injection Hu.
Qed.

Lemma upsertEach_accepted (sensors : list Sensor.t) (tbl : sensorsTable) :
  fromDiscovery tbl ->
  (forall s, In s sensors -> namespaced s /\ upsertAccepted s = true) ->
  exists tbl',
    upsertEach sensors tbl = (Ok tt, tbl')
    /\ fromDiscovery tbl'
    /\ (forall id, ~ In id (List.map Sensor.id sensors) -> tbl' !! id = tbl !! id)
    /\ (forall s, In s sensors ->
                  exists s', In s' sensors /\ Sensor.id s' = Sensor.id s
                             /\ tbl' !! Sensor.id s = Some s')
    /\ (List.NoDup (List.map Sensor.id sensors) ->
        forall s, In s sensors -> tbl' !! Sensor.id s = Some s).
Proof.
  revert tbl. induction sensors as [|s sensors IH]; intros tbl Htbl Hall.
  - exists tbl. split; [reflexivity|]. split; [exact Htbl|]. split; [auto|].
    split; intros; contradiction.
  - destruct (Hall s (or_introl eq_refl)) as [Hns Hacc].
    destruct (IH (<[Sensor.id s := s]> tbl)) as (tbl' & Hu & Hd & Hother & Hsome & Huniq).
    { now apply upsert_fromDiscovery. }
    { intros s' Hs'. apply Hall. now right. }
    exists tbl'. split; [|split; [exact Hd|split; [|split]]].
    + cbn [upsertEach]. unfold upsertSensor.
      rewrite Hacc, (entityTaken_false s tbl Hns Htbl). simpl. exact Hu.
    + intros id Hnot. simpl in Hnot. rewrite Hother by tauto.
      apply lookup_insert_ne. tauto.
    + intros s0 [<-|Hin]; [|destruct (Hsome s0 Hin) as (s' & ? & ? & ?);
                             exists s'; simpl; auto].
      destruct (decide (Sensor.id s ∈ List.map Sensor.id sensors)) as [Hdup|Hfresh];
        rewrite list_elem_of_In in *.
      * apply in_map_iff in Hdup. destruct Hdup as (s1 & E1 & Hin1).
        destruct (Hsome s1 Hin1) as (s' & Hin' & E' & Hl).
        exists s'. split; [now right|]. split; [congruence|]. now rewrite <- E1.
      * exists s. split; [now left|]. split; [reflexivity|].
        rewrite Hother by exact Hfresh. apply lookup_insert_eq.
    + intros Hnd s0 Hin. simpl in Hnd. apply List.NoDup_cons_iff in Hnd.
      destruct Hnd as [Hfresh Hnd]. destruct Hin as [<-|Hin]; [|now apply Huniq].
      rewrite Hother by exact Hfresh. apply lookup_insert_eq.
Qed.

Lemma upsertEach_rejected (pre post : list Sensor.t) (bad : Sensor.t)
    (tbl : sensorsTable) :
  fromDiscovery tbl ->
  (forall s, In s pre -> namespaced s /\ upsertAccepted s = true) ->
  upsertAccepted bad = false ->
  exists tbl',
    upsertEach pre tbl = (Ok tt, tbl')
    /\ upsertEach (pre ++ bad :: post) tbl = (Throw QueryError, tbl').
Proof.
  revert tbl. induction pre as [|s pre IH]; intros tbl Htbl Hall Hbad.
  - exists tbl. split; [reflexivity|]. simpl. unfold upsertSensor. now rewrite Hbad.
  - destruct (Hall s (or_introl eq_refl)) as [Hns Hacc].
    destruct (IH (<[Sensor.id s := s]> tbl)) as (tbl' & Hu & Hthrow).
    { now apply upsert_fromDiscovery. }
    { intros s' Hs'. apply Hall. now right. }
    { exact Hbad. }
    exists tbl'. cbn [app upsertEach]. unfold upsertSensor.
    rewrite Hacc, (entityTaken_false s tbl Hns Htbl). simpl. auto.
Qed.

Context `{Host}.

Lemma discovered_namespaced (client : HomeAssistantClient) (sensors : list Sensor.t)
    (s : Sensor.t) :
  discoverSensors client = Ok sensors -> In s sensors -> namespaced s.
Proof.
  intros Hd Hin.
  destruct (discovered_origin client _ s Hd Hin) as (states & state & _ & _ & Hns & Hmap).
  apply mapStateToSensor_Some in Hmap. destruct Hmap as (_ & Hent & Hi & _).
  unfold namespaced. rewrite Hi, Hent. symmetry. now apply replace_prefix.
Qed.

(** X21: on a table that holds only rows written by discovery, the
    storing discovery never fails on the uniqueness of the entity
    identifier: it throws only when the snapshot fails, with the table
    untouched, or when the database rejects a sensor for another reason,
    with the sensors before that one stored.  When it succeeds, it returns
    the discovered roster, every sensor of the roster is a row of the
    table (the one stored last for its identifier), and the rows of the
    sensors that are not in the snapshot are kept as they were: discovery
    deletes nothing. *)
Theorem discoverAndStoreSensors_outcome (client : HomeAssistantClient)
    (tbl : sensorsTable) :
  fromDiscovery tbl ->
  (forall error, discoverSensors client = Throw error ->
                 discoverAndStoreSensors client tbl = (Throw error, tbl))
  /\ (forall sensors,
        discoverSensors client = Ok sensors ->
        (forall s, In s sensors -> upsertAccepted s = true) ->
        exists tbl',
          discoverAndStoreSensors client tbl = (Ok sensors, tbl')
          /\ fromDiscovery tbl'
          /\ (forall id, ~ In id (List.map Sensor.id sensors) ->
                         getSensorById id tbl' = getSensorById id tbl)
          /\ (forall s, In s sensors ->
                exists s', In s' sensors /\ Sensor.id s' = Sensor.id s
                           /\ getSensorById (Sensor.id s) tbl' = Some s')
          /\ (List.NoDup (List.map Sensor.id sensors) ->
              forall s, In s sensors -> getSensorById (Sensor.id s) tbl' = Some s))
  /\ (forall pre bad post,
        discoverSensors client = Ok (pre ++ bad :: post) ->
        (forall s, In s pre -> upsertAccepted s = true) ->
        upsertAccepted bad = false ->
        exists tbl',
          discoverAndStoreSensors client tbl = (Throw QueryError, tbl')
          /\ upsertEach pre tbl = (Ok tt, tbl')).
Proof.
  intros Htbl. unfold discoverAndStoreSensors, getSensorById. split; [|split].
  - intros error He. now rewrite He.
  - intros sensors Hd Hacc. rewrite Hd.
    destruct (upsertEach_accepted sensors tbl Htbl) as (tbl' & Hu & Hrest).
    { intros s Hs. split; [now apply (discovered_namespaced client sensors)|now apply Hacc]. }
    exists tbl'. rewrite Hu. auto.
  - intros pre bad post Hd Hacc Hbad. rewrite Hd.
    destruct (upsertEach_rejected pre post bad tbl Htbl) as (tbl' & Hu & Hthrow).
    { intros s Hs. split; [|now apply Hacc].
      apply (discovered_namespaced client (pre ++ bad :: post)); [exact Hd|].
      apply in_or_app. now left. }
    { exact Hbad. }
    exists tbl'. rewrite Hthrow. auto.
Qed.
End SensorRepository.

(** X22: deleting a sensor removes its row and, by the cascade, all of
    its readings: afterwards the sensor is not found, has no latest
    reading and no reading in any time range, while the rows and the
    readings of every other sensor are as before. *)
Theorem deleteSensor_cascade (id : jsstring) (tbl : sensorsTable) (db : table) :
  let '(tbl', db') := deleteSensor id (tbl, db) in
  getSensorById id tbl' = None
  /\ fst (getLatestReading id db') = Ok None
  /\ (forall startDate endDate,
        fst (getReadingsByTimeRange id startDate endDate db') = Ok [])
  /\ (forall other, other <> id ->
        getSensorById other tbl' = getSensorById other tbl
        /\ fst (getLatestReading other db') = fst (getLatestReading other db)
        /\ forall startDate endDate,
             fst (getReadingsByTimeRange other startDate endDate db')
             = fst (getReadingsByTimeRange other startDate endDate db)).
Proof.
  unfold deleteSensor, getSensorById. simpl.
  assert (forall other, other <> id ->
            List.filter (ofSensor other)
              (List.filter (fun row => negb (ofSensor id row)) db)
            = List.filter (ofSensor other) db) as Hother.
  { intros other Hne. apply filter_filter_implied. intros row Hrow.
    unfold ofSensor in *. apply bool_decide_eq_true in Hrow.
    apply negb_true_iff, bool_decide_eq_false. congruence. }
  split; [apply lookup_delete_eq|]. split; [|split].
  - unfold getLatestReading.
    replace (List.filter (ofSensor id) _) with (@nil SensorReading.t); [reflexivity|].
    symmetry. apply filter_none. intros row Hrow. apply filter_In in Hrow.
    destruct Hrow as [_ Hrow]. now apply negb_true_iff in Hrow.
  - intros startDate endDate. unfold getReadingsByTimeRange. simpl.
    rewrite filter_none; [reflexivity|].
    intros row Hrow. apply filter_In in Hrow.
    destruct Hrow as [_ Hrow]. apply negb_true_iff in Hrow. now rewrite Hrow.
  - intros other Hne. split; [now apply lookup_delete_ne|]. split.
    + unfold getLatestReading. rewrite (Hother other Hne).
      destruct (firstn 1 _); reflexivity.
    + intros startDate endDate. unfold getReadingsByTimeRange. simpl. f_equal. f_equal.
      apply filter_filter_implied. intros row Hrow.
      apply andb_true_iff in Hrow. destruct Hrow as [Hrow _].
      apply andb_true_iff in Hrow. destruct Hrow as [Hrow _].
      unfold ofSensor in *. apply bool_decide_eq_true in Hrow.
      apply negb_true_iff, bool_decide_eq_false. congruence.
Qed.

(** X23: setting the status of a sensor never makes a row: the table is
    unchanged when the sensor is not in it; otherwise the row of the
    sensor gets the status and keeps its identifier, names, kind, unit
    and last-seen date, and every other row is as before. *)
Theorem updateSensorStatus_only_status (id : jsstring) (status : Status.t)
    (tbl : sensorsTable) :
  (getSensorById id tbl = None -> updateSensorStatus id status tbl = tbl)
  /\ (forall row, getSensorById id tbl = Some row ->
        exists row',
          getSensorById id (updateSensorStatus id status tbl) = Some row'
          /\ Sensor.status row' = status
          /\ Sensor.id row' = Sensor.id row
          /\ Sensor.friendlyName row' = Sensor.friendlyName row
          /\ Sensor.entityId row' = Sensor.entityId row
          /\ Sensor.type row' = Sensor.type row
          /\ Sensor.unit row' = Sensor.unit row
          /\ Sensor.lastSeen row' = Sensor.lastSeen row)
  /\ (forall other, other <> id ->
        getSensorById other (updateSensorStatus id status tbl)
        = getSensorById other tbl)
  /\ (forall other, is_Some (getSensorById other (updateSensorStatus id status tbl))
                    <-> is_Some (getSensorById other tbl)).
Proof.
  unfold updateSensorStatus, getSensorById. split; [|split; [|split]].
  - intros Hnone. apply map_eq. intros i. rewrite lookup_alter.
    destruct (decide (id = i)) as [<-|Hne]; [now rewrite Hnone|reflexivity].
  - intros row Hrow. rewrite lookup_alter_eq, Hrow. simpl. eexists. split; [reflexivity|].
    simpl. repeat split.
  - intros other Hne. now apply lookup_alter_ne.
  - intros other. rewrite lookup_alter.
    destruct (decide (id = other)) as [<-|Hne]; [|reflexivity].
    destruct (tbl !! id); simpl; [split; intros _; eauto|reflexivity].
Qed.
(** ** The routes: dashboard and history *)

(** X24: the dashboard shows, for a data kind of which a group has one
    sensor, the value of a newest row of that sensor in the table (one
    that no row of the sensor is newer than), and no value when the table
    has no row of the sensor; reading the groups leaves the table as it
    is. *)
Theorem loader_groups_show_newest `{Host} (sensors : list Sensor.t) (db db' : table)
    (groups : list SensorGroup.t) (g : SensorGroup.t) (kind : DataType.t)
    (s : Sensor.t) :
  loaderGroups sensors db = (Ok groups, db') ->
  In g groups ->
  membersOfKind kind (SensorGroup.location g) sensors = [s] ->
  db' = db
  /\ (((forall row, In row db -> SensorReading.sensorId row <> Sensor.id s)
       /\ groupValue kind g = None)
      \/ exists row, newestOf (Sensor.id s) db row
                     /\ groupValue kind g = readingField kind row).
Proof.
  intros Hl Hg Hone. unfold loaderGroups, bind, ret in Hl.
  destruct (getAllLatestReadings_lookup db (Sensor.id s)) as (latest & E & Hnone & Hsome).
  rewrite E in Hl. injection Hl as <- <-. split; [reflexivity|].
  apply groupSensorsByLocation_In, groupOf_fields in Hg.
  destruct Hg as (_ & _ & _ & _ & Hval). rewrite (Hval kind), Hone.
  unfold readingsOf, lastField. simpl.
  destruct (latest !! Sensor.id s) as [row|] eqn:El; simpl.
  - right. exists row. auto.
  - left. split; [now apply Hnone|reflexivity].
Qed.

Lemma buildSensorTypeMap_absent (ids : list jsstring) (allSensors : list Sensor.t)
    (acc : gmap jsstring (option DataType.t)) (i : jsstring) :
  ~ In i ids ->
  fold_left
    (fun sensorTypeMap sensorId =>
       match List.find (fun s => bool_decide (Sensor.id s = sensorId)) allSensors with
       | Some sensor =>
         <[sensorId := getSensorDataType (Sensor.friendlyName sensor)]> sensorTypeMap
       | None => sensorTypeMap
       end) ids acc !! i = acc !! i.
Proof.
  revert acc. induction ids as [|j ids IH]; intros acc Hnot; [reflexivity|].
  cbn [fold_left]. rewrite IH by (simpl in Hnot; tauto).
  destruct (List.find _ allSensors); [|reflexivity].
  apply lookup_insert_ne. simpl in Hnot. tauto.
Qed.

Lemma buildSensorTypeMap_present (ids : list jsstring) (allSensors : list Sensor.t)
    (acc : gmap jsstring (option DataType.t)) (i : jsstring) (s : Sensor.t) :
  In i ids ->
  List.find (fun s => bool_decide (Sensor.id s = i)) allSensors = Some s ->
  fold_left
    (fun sensorTypeMap sensorId =>
       match List.find (fun s => bool_decide (Sensor.id s = sensorId)) allSensors with
       | Some sensor =>
         <[sensorId := getSensorDataType (Sensor.friendlyName sensor)]> sensorTypeMap
       | None => sensorTypeMap
       end) ids acc !! i
  = Some (getSensorDataType (Sensor.friendlyName s)).
Proof.
  revert acc. induction ids as [|j ids IH]; intros acc Hin Hf; [destruct Hin|].
  cbn [fold_left].
  destruct (decide (i ∈ ids)) as [Hi|Hi]; rewrite list_elem_of_In in Hi.
  - now apply IH.
  - destruct Hin as [->|Hin]; [|contradiction].
    rewrite buildSensorTypeMap_absent by exact Hi. rewrite Hf. apply lookup_insert_eq.
Qed.

Lemma find_by_id (allSensors : list Sensor.t) (s : Sensor.t) :
  List.NoDup (List.map Sensor.id allSensors) -> In s allSensors ->
  List.find (fun s' => bool_decide (Sensor.id s' = Sensor.id s)) allSensors = Some s.
Proof.
  induction allSensors as [|x l IH]; intros Hnd Hin; [destruct Hin|].
  simpl in Hnd. apply List.NoDup_cons_iff in Hnd. destruct Hnd as [Hfresh Hnd].
  cbn [List.find]. destruct Hin as [->|Hin].
  - now rewrite bool_decide_eq_true_2.
  - rewrite bool_decide_eq_false_2; [now apply IH|].
    intros E. apply Hfresh. rewrite E. now apply in_map.
Qed.

(** X25: for a group of the dashboard over sensors whose identifiers are
    distinct, the map of data kinds that the history is built with has an
    entry for exactly the sensors of the group, and the entry of a sensor
    is the data kind that its name announces, the same that files its
    latest reading in the group.  The readings of every other sensor
    bring no value to the history. *)
Theorem history_types_of_group `{Host} (sensors : list Sensor.t)
    (latestReadings : gmap jsstring SensorReading.t) (g : SensorGroup.t) :
  List.NoDup (List.map Sensor.id sensors) ->
  In g (groupSensorsByLocation sensors latestReadings) ->
  let sensorTypeMap := buildSensorTypeMap (SensorGroup.sensorIds g) sensors in
  (forall s, In s (members (SensorGroup.location g) sensors) ->
     sensorTypeMap !! Sensor.id s = Some (getSensorDataType (Sensor.friendlyName s)))
  /\ (forall id, ~ In id (SensorGroup.sensorIds g) -> sensorTypeMap !! id = None)
  /\ (forall kind second readings,
        (forall r, In r readings ->
                   ~ In (SensorReading.sensorId r) (SensorGroup.sensorIds g)) ->
        contributions sensorTypeMap kind second readings = []).
Proof.
  intros Hnd Hg sensorTypeMap.
  apply groupSensorsByLocation_In, groupOf_fields in Hg.
  destruct Hg as (_ & _ & Hids & _).
  assert (forall id, ~ In id (SensorGroup.sensorIds g) -> sensorTypeMap !! id = None)
    as Habsent.
  { intros id Hnot. unfold sensorTypeMap, buildSensorTypeMap.
    rewrite buildSensorTypeMap_absent by exact Hnot. apply lookup_empty. }
  split; [|split; [exact Habsent|]].
  - intros s Hs. unfold sensorTypeMap, buildSensorTypeMap.
    apply buildSensorTypeMap_present.
    + rewrite Hids. now apply in_map.
    + apply find_by_id; [exact Hnd|]. now apply members_In in Hs.
  - intros kind second readings Hnone. unfold contributions.
    induction readings as [|r readings IH]; [reflexivity|].
    rewrite omap_cons_match. rewrite (Habsent _ (Hnone r (or_introl eq_refl))).
    rewrite bool_decide_eq_false_2 by discriminate. rewrite andb_false_r.
    apply IH. intros r' Hr'. apply Hnone. now right.
Qed.

(** * The properties of the further code on the sample data *)

Lemma discovered_temp_found : In discovered_temp (@discovered digitsHost snapshotClient).
Proof. vm_compute. left. reflexivity. Defined.

Lemma snapshot_discovered :
  @discoverSensors digitsHost snapshotClient = Ok (@discovered digitsHost snapshotClient).
Proof. vm_compute. reflexivity. Defined.

Lemma sampleSensors_distinct : List.NoDup (List.map Sensor.id sampleSensors).
Proof.
  vm_compute.
  repeat (apply List.NoDup_cons;
          [intros Hin; repeat (destruct Hin as [Hin|Hin]; [discriminate Hin|]);
           exact Hin|]).
  apply List.NoDup_nil.
Defined.

Lemma discovered_identifiers_witness :
  List.NoDup (List.map Sensor.id (@discovered digitsHost snapshotClient)).
Proof.
  apply (proj2 (@discovered_identifiers digitsHost snapshotClient sampleStates
                  (@discovered digitsHost snapshotClient) eq_refl snapshot_discovered)).
  vm_compute.
  repeat (apply List.NoDup_cons;
          [intros Hin; repeat (destruct Hin as [Hin|Hin]; [discriminate Hin|]);
           exact Hin|]).
  apply List.NoDup_nil.
Defined.

Lemma discovered_friendlyName_witness :
  Sensor.friendlyName discovered_temp <> [].
Proof.
  apply (@discovered_friendlyName digitsHost snapshotClient
           (@discovered digitsHost snapshotClient) discovered_temp
           snapshot_discovered discovered_temp_found).
Defined.

Lemma discovered_reading_one_field_witness :
  let r := @buildReading digitsHost discovered_temp
             (sensorState "sensor.buero_temperature" "22" "Büro Temperature" "°C"
                          "temperature")
             (numberOfN 22) in
  (Sensor.type discovered_temp = SensorType.temperature
   /\ SensorReading.temperature r = Some (numberOfN 22)
   /\ SensorReading.humidity r = None)
  \/ (Sensor.type discovered_temp = SensorType.humidity
      /\ SensorReading.temperature r = None
      /\ SensorReading.humidity r = Some (numberOfN 22)).
Proof.
  apply (@discovered_reading_one_field digitsHost snapshotClient
           (@discovered digitsHost snapshotClient) discovered_temp
           (sensorState "sensor.buero_temperature" "22" "Büro Temperature" "°C"
                        "temperature")
           (numberOfN 22) snapshot_discovered discovered_temp_found).
Defined.

Lemma discovered_groups_online_witness :
  SensorGroup.status snapshotGroup = Status.online.
Proof.
  apply (@discovered_groups_online digitsHost snapshotClient
           (@discovered digitsHost snapshotClient) ∅ snapshotGroup snapshot_discovered).
  vm_compute. left. reflexivity.
Defined.

(** A pass over the three sensors of the room, of which the second
    answers with a state that is no number. *)
Lemma memory_collection_latest_witness :
  DataStore.getLatest (Sensor.id sensor_bat)
    (@DataCollectionService.collectData digitsHost sampleClient
       [sensor_temp; sensor_hum; sensor_bat] [])
  = Some (@buildReading digitsHost sensor_bat (stateOf "sensor.buero_battery" "16")
            (numberOfN 16)).
Proof.
  apply (proj1 (@memory_collection_latest digitsHost sampleClient
                  [sensor_temp; sensor_hum; sensor_bat] []
                  ltac:(vm_compute;
                        repeat (apply List.NoDup_cons;
                                [intros Hin;
                                 repeat (destruct Hin as [Hin|Hin]; [discriminate Hin|]);
                                 exact Hin|]);
                        apply List.NoDup_nil))
           sensor_bat).
  - right. right. left. reflexivity.
  - vm_compute. reflexivity.
Defined.

Lemma insert_then_latest_witness :
  exists db',
    @insertReading digitsHost reading_temp [reading_temp_old; reading_hum] = (Ok tt, db')
    /\ getLatestReading (str "buero_temp") db' = (Ok (Some reading_temp), db').
Proof.
  destruct (@insert_then_latest digitsHost reading_temp [reading_temp_old; reading_hum])
    as (db' & Hins & Hlatest & _).
  - reflexivity.
  - intros row [<-|[<-|[]]] Hid; [reflexivity|vm_compute in Hid; discriminate Hid].
  - exists db'. split; [exact Hins|exact Hlatest].
Defined.

Lemma batch_placeholders_aligned_witness :
  length (batchValues [reading_temp; reading_hum]) = 8%nat
  /\ exists p1 p2 p3 p4,
       batchPlaceholders [reading_temp; reading_hum] !! 1%nat = Some (p1, p2, p3, p4)
       /\ (1 <= p1)%nat /\ (p4 <= length (batchValues [reading_temp; reading_hum]))%nat
       /\ batchValues [reading_temp; reading_hum] !! (p1 - 1)%nat
          = Some (PgText (SensorReading.sensorId reading_hum))
       /\ batchValues [reading_temp; reading_hum] !! (p2 - 1)%nat
          = Some (PgTimestamp (SensorReading.timestamp reading_hum))
       /\ batchValues [reading_temp; reading_hum] !! (p3 - 1)%nat
          = Some (PgDouble (SensorReading.temperature reading_hum))
       /\ batchValues [reading_temp; reading_hum] !! (p4 - 1)%nat
          = Some (PgDouble (SensorReading.humidity reading_hum)).
Proof.
  exact (batch_placeholders_aligned [reading_temp; reading_hum] 1 reading_hum eq_refl).
Defined.


Lemma history_bucket_values_witness :
  bucketValue DataType.humidity sampleBucket
  = last (contributions
            (buildSensorTypeMap (SensorGroup.sensorIds sampleGroup) sampleSensors)
            DataType.humidity (AggregatedReading.timestamp sampleBucket) sampleTable).
Proof.
  apply (history_bucket_values
           (buildSensorTypeMap (SensorGroup.sensorIds sampleGroup) sampleSensors)
           sampleTable sampleBucket).
  vm_compute. right. right. left. reflexivity.
Defined.

Lemma sampleSensorsTable_fromDiscovery : fromDiscovery sampleSensorsTable.
Proof.
  intros id row Hrow. unfold sampleSensorsTable in Hrow.
  destruct (decide (id = str "buero_temperature")) as [->|Hne].
  - rewrite lookup_insert_eq in Hrow. injection Hrow as <-. split; reflexivity.
  - rewrite lookup_insert_ne, lookup_empty in Hrow by congruence. discriminate Hrow.
Defined.

(** The discovery of the snapshot over a table with the row of an earlier
    discovery: the row of the sensor is replaced. *)
Lemma discoverAndStoreSensors_outcome_witness :
  exists tbl',
    @discoverAndStoreSensors digitsHost acceptAll snapshotClient sampleSensorsTable
    = (Ok (@discovered digitsHost snapshotClient), tbl')
    /\ getSensorById (Sensor.id discovered_temp) tbl' = Some discovered_temp.
Proof.
  destruct (proj1 (proj2 (@discoverAndStoreSensors_outcome acceptAll digitsHost
                            snapshotClient sampleSensorsTable
                            sampleSensorsTable_fromDiscovery))
              (@discovered digitsHost snapshotClient) snapshot_discovered)
    as (tbl' & Hrun & _ & _ & _ & Hall).
  - intros s Hs. reflexivity.
  - exists tbl'. split; [exact Hrun|].
    apply Hall; [|exact discovered_temp_found].
    vm_compute.
    repeat (apply List.NoDup_cons;
            [intros Hin; repeat (destruct Hin as [Hin|Hin]; [discriminate Hin|]);
             exact Hin|]).
    apply List.NoDup_nil.
Defined.

Lemma loader_groups_show_newest_witness :
  ((forall row, In row sampleTable ->
                SensorReading.sensorId row <> Sensor.id sensor_temp)
   /\ groupValue DataType.temperature sampleGroup = None)
  \/ exists row, newestOf (Sensor.id sensor_temp) sampleTable row
                 /\ groupValue DataType.temperature sampleGroup
                    = readingField DataType.temperature row.
Proof.
  apply (@loader_groups_show_newest digitsHost sampleSensors sampleTable sampleTable
           (@groupSensorsByLocation digitsHost sampleSensors sampleReadings)
           sampleGroup DataType.temperature sensor_temp).
  - vm_compute. reflexivity.
  - exact sampleGroup_returned.
  - vm_compute. reflexivity.
Defined.

Lemma history_types_of_group_witness :
  buildSensorTypeMap (SensorGroup.sensorIds sampleGroup) sampleSensors
    !! Sensor.id sensor_bat
  = Some (getSensorDataType (Sensor.friendlyName sensor_bat)).
Proof.
  apply (proj1 (@history_types_of_group digitsHost sampleSensors sampleReadings
                  sampleGroup sampleSensors_distinct sampleGroup_returned)
           sensor_bat).
  vm_compute. right. right. left. reflexivity.
Defined.
